(** * JobTrackr: the preparation folder tree, its item views and the
      row-store rules behind them

    A shallow embedding of the client pages ([Preparation], [Dashboard],
    [Stories], [Notes]) and of the two SQL migrations, with the properties
    the specification states about them.

    Conventions.
    - A JavaScript string is the list of its UTF-16 code units.
    - [string | null] is [option jsstring]; [===] on such values is equality.
    - A React state cell is a record field; [setX v] is one [SetState] step
      of a handler program.  A handler reads the cells of the render it was
      created in (its snapshot) and writes to the current state.
    - [await supabase...] is an [Await] step whose continuation receives
      the [{ data, error }] answer of the row-store. *)

From Stdlib Require Import NArith Ascii String.
From stdpp Require Import base decidable option list relations.
From stdpp Require Import gmap strings sorting.

Set Warnings "-register-all,-clear-no-such-hyp".

Set Default Proof Using "Type".
Local Open Scope N_scope.
Local Open Scope nat_scope.

(** ** JavaScript strings *)

Definition code_unit := N.
Definition jsstring := list code_unit.

(** ASCII literal of the source as a JavaScript string. *)
Definition js (s : string) : jsstring :=
  N_of_ascii <$> list_ascii_of_string s.

(** ECMAScript [WhiteSpace] and [LineTerminator] code points, the ones
    [String.prototype.trim] strips. *)
Definition is_js_whitespace (c : code_unit) : bool :=
  ((c =? 0x9) || (c =? 0xA) || (c =? 0xB) || (c =? 0xC) || (c =? 0xD)
   || (c =? 0x20) || (c =? 0xA0) || (c =? 0x1680)
   || ((0x2000 <=? c) && (c <=? 0x200A))
   || (c =? 0x2028) || (c =? 0x2029) || (c =? 0x202F) || (c =? 0x205F)
   || (c =? 0x3000) || (c =? 0xFEFF))%N.

Fixpoint trimStart (s : jsstring) : jsstring :=
  match s with
  | [] => []
  | c :: s' => if is_js_whitespace c then trimStart s' else s
  end.

Definition trimEnd (s : jsstring) : jsstring :=
  reverse (trimStart (reverse s)).

(** [s.trim()] *)
Definition trim (s : jsstring) : jsstring := trimEnd (trimStart s).

(** Truthiness of a string: every string but the empty one. *)
Definition truthy (s : jsstring) : bool :=
  match s with [] => false | _ :: _ => true end.

(** Truthiness of a [string | null]. *)
Definition truthy_opt (o : option jsstring) : bool :=
  match o with None => false | Some s => truthy s end.

(** A string made of white space only (the empty string included). *)
Definition whitespace_only (s : jsstring) : Prop :=
  Forall (λ c, is_js_whitespace c = true) s.

(** ** Client data model ([Preparation] page)

    The three interfaces of the page.  Rocq record fields share one name
    space, so each interface's fields carry a prefix: [pf_] for
    [PrepFolder], [pi_] for [PrepItem]. *)

Record PrepFolder := mkPrepFolder {
  pf_id : jsstring;
  pf_name : jsstring;
  pf_parent_id : option jsstring;
}.

Inductive item_type := story | note.

Record PrepItem := mkPrepItem {
  pi_id : jsstring;
  pi_folder_id : jsstring;
  pi_type : item_type;
  pi_title : jsstring;
  pi_situation : jsstring;
  pi_task : jsstring;
  pi_action : jsstring;
  pi_result : jsstring;
  pi_content : jsstring;
  pi_tags : list jsstring;
  pi_updated_at : jsstring;
}.

(** [interface FolderTreeNode extends PrepFolder]: the folder's own fields
    (the spread [...folder]) with [children] and [isExpanded]. *)
Inductive FolderTreeNode := mkNode {
  node_folder : PrepFolder;
  children : list FolderTreeNode;
  isExpanded : bool;
}.

Global Instance PrepFolder_eq_dec : EqDecision PrepFolder.
Proof. solve_decision. Defined.
Global Instance item_type_eq_dec : EqDecision item_type.
Proof. solve_decision. Defined.
Global Instance PrepItem_eq_dec : EqDecision PrepItem.
Proof. solve_decision. Defined.

(** ** Folder tree builder *)

Section tree.
Variable folders : list PrepFolder.
Variable expandedFolders : gset jsstring.

(** [buildFolderTree(parentId)].  The source recursion has no measure:
    [fuel] bounds its depth, and [None] means the depth was not enough.
    The call diverges when every [fuel] gives [None]. *)
Fixpoint buildFolderTree_fuel (fuel : nat) (parentId : option jsstring)
    : option (list FolderTreeNode) :=
  match fuel with
  | 0 => None
  | S fuel' =>
      mapM (λ folder,
              kids ← buildFolderTree_fuel fuel' (Some (pf_id folder));
              Some {| node_folder := folder;
                      children := kids;
                      isExpanded :=
                        bool_decide (pf_id folder ∈ expandedFolders) |})
           (filter (λ f, pf_parent_id f = parentId) folders)
  end.

(** The builder with the depth that every cycle-free collection needs
    at most (see [buildFolderTree_fuel_enough]). *)
Definition buildFolderTree (parentId : option jsstring)
    : option (list FolderTreeNode) :=
  buildFolderTree_fuel (S (length folders)) parentId.

(** [p] is the parent reference of a folder whose identifier is [c]. *)
Definition is_parent (p c : jsstring) : Prop :=
  ∃ f, f ∈ folders ∧ pf_id f = c ∧ pf_parent_id f = Some p.

(** [c] is a proper descendant of [p]. *)
Definition descendant (p c : jsstring) : Prop := tc is_parent p c.

(** No folder is its own proper descendant. *)
Definition acyclic : Prop := ∀ x, ¬ descendant x x.

(** Every parent reference is the identifier of a folder of the
    collection. *)
Definition resolves : Prop :=
  ∀ f p, f ∈ folders → pf_parent_id f = Some p →
         p ∈ (pf_id <$> folders).

(** [id] is the primary key of [prep_folders]. *)
Definition unique_ids : Prop := NoDup (pf_id <$> folders).

(** What a node built for the folder [c] with depth [k] looks like. *)
Definition built_for (k : nat) (c : PrepFolder) (n : FolderTreeNode)
    : Prop :=
  node_folder n = c ∧
  isExpanded n = bool_decide (pf_id c ∈ expandedFolders) ∧
  buildFolderTree_fuel k (Some (pf_id c)) = Some (children n).

(** [f] hangs below the parent value [p]: it is a child of [p], or a
    proper descendant of a child of [p]. *)
Definition below (p : option jsstring) (f : PrepFolder) : Prop :=
  f ∈ folders ∧
  (pf_parent_id f = p ∨
   ∃ c, c ∈ folders ∧ pf_parent_id c = p ∧ descendant (pf_id c) (pf_id f)).
End tree.

(** Every node of a tree, the root first. *)
Fixpoint tree_nodes (n : FolderTreeNode) : list FolderTreeNode :=
  n :: (children n ≫= tree_nodes).

Definition forest_nodes (forest : list FolderTreeNode)
    : list FolderTreeNode :=
  forest ≫= tree_nodes.

(** The folder records a forest carries, in display order. *)
Definition forest_folders (forest : list FolderTreeNode)
    : list PrepFolder :=
  node_folder <$> forest_nodes forest.

(** Structural induction on a tree, with the hypothesis for every child. *)
Fixpoint FolderTreeNode_forall_ind (P : FolderTreeNode → Prop)
    (step : ∀ f kids e, Forall P kids → P (mkNode f kids e))
    (n : FolderTreeNode) : P n :=
  match n with
  | mkNode f kids e =>
      step f kids e
        ((fix go (l : list FolderTreeNode) : Forall P l :=
            match l with
            | [] => List.Forall_nil P
            | x :: l' =>
                List.Forall_cons P x l'
                  (FolderTreeNode_forall_ind P step x) (go l')
            end) kids)
  end.

Definition forest_size (forest : list FolderTreeNode) : nat :=
  length (forest_nodes forest).

(** The spec's scenario: [A] is a root, [B] is under [A], [C] under [B]. *)
Definition folderA := mkPrepFolder (js "A") (js "Work") None.
Definition folderB := mkPrepFolder (js "B") (js "Stories") (Some (js "A")).
Definition folderC := mkPrepFolder (js "C") (js "Notes") (Some (js "B")).
Definition scenario_folders := [folderA; folderB; folderC].

(** Two folders that name each other as parent. *)
Definition loopA := mkPrepFolder (js "A") (js "Work") (Some (js "B")).
Definition loopB := mkPrepFolder (js "B") (js "Stories") (Some (js "A")).
Definition loop_folders := [loopA; loopB].

(** A rank that grows from parent to child along the scenario. *)
Definition first_unit (s : jsstring) : nat :=
  match s with [] => 0 | c :: _ => N.to_nat c end.

(** ** The row-store: schema of the two migrations

    The tables, columns, foreign keys, [CHECK]s and row-level policies of
    [create_jobtrackr_schema] and [add_preparation_schema], as data. *)

Inductive table :=
  | Auth_users | Profiles | Jobs | Stories | Notes
  | Prep_folders | Prep_items.

Global Instance table_eq_dec : EqDecision table.
Proof. solve_decision. Defined.

Definition all_tables : list table :=
  [Auth_users; Profiles; Jobs; Stories; Notes; Prep_folders; Prep_items].

(** A cell: SQL [NULL], a text-like scalar ([uuid], [text], [date],
    [timestamptz], [jsonb]) or a [text[]]. *)
Inductive value :=
  | VNull
  | VText (s : jsstring)
  | VArray (l : list jsstring).

Global Instance value_eq_dec : EqDecision value.
Proof. solve_decision. Defined.

(** A row, and equally the JSON object of a request: column name to cell. *)
Abbreviation row := (gmap string value).

Inductive column_type := TText | TTextArray.

Inductive default_expr :=
  | DefText (s : jsstring)      (* DEFAULT '...' *)
  | DefUuid                     (* DEFAULT gen_random_uuid() *)
  | DefNow                      (* DEFAULT now() *)
  | DefToday                    (* DEFAULT CURRENT_DATE *)
  | DefEmptyArray.              (* DEFAULT ARRAY[]::text[] *)

Record column_def := mkColumn {
  col_name : string;
  col_type : column_type;
  col_not_null : bool;
  col_default : option default_expr;
}.

(** [col REFERENCES target(id) [ON DELETE CASCADE]] *)
Record foreign_key := mkForeignKey {
  fk_column : string;
  fk_target : table;
  fk_on_delete_cascade : bool;
}.

(** [CHECK (col IN (...))] *)
Record check_constraint := mkCheck {
  chk_column : string;
  chk_allowed : list jsstring;
}.

Definition id_column : column_def :=
  mkColumn "id" TText true (Some DefUuid).
Definition user_id_column : column_def :=
  mkColumn "user_id" TText true None.
Definition timestamps : list column_def :=
  [mkColumn "created_at" TText false (Some DefNow);
   mkColumn "updated_at" TText false (Some DefNow)].
Definition text_column (c : string) : column_def :=
  mkColumn c TText false (Some (DefText [])).
Definition tags_column : column_def :=
  mkColumn "tags" TTextArray false (Some DefEmptyArray).

Definition columns_of (t : table) : list column_def :=
  match t with
  | Auth_users =>
      [mkColumn "id" TText true None; mkColumn "email" TText false None]
  | Profiles =>
      [mkColumn "id" TText true None;
       mkColumn "email" TText true None;
       text_column "full_name";
       mkColumn "custom_columns" TText false (Some (DefText (js "[]")));
       mkColumn "theme" TText false (Some (DefText (js "light")))]
      ++ timestamps
  | Jobs =>
      [id_column; user_id_column;
       mkColumn "role" TText true None;
       mkColumn "company" TText true None;
       mkColumn "status" TText false (Some (DefText (js "Applied")));
       mkColumn "applied_date" TText false (Some DefToday);
       text_column "job_link"; text_column "notes";
       mkColumn "custom_data" TText false (Some (DefText (js "{}")))]
      ++ timestamps
  | Stories =>
      [id_column; user_id_column;
       mkColumn "title" TText true None;
       text_column "situation"; text_column "task";
       text_column "action"; text_column "result"; tags_column]
      ++ timestamps
  | Notes =>
      [id_column; user_id_column;
       mkColumn "title" TText true None;
       text_column "content"; tags_column]
      ++ timestamps
  | Prep_folders =>
      [id_column; user_id_column;
       mkColumn "name" TText true None;
       mkColumn "parent_id" TText false None]
      ++ timestamps
  | Prep_items =>
      [id_column; user_id_column;
       mkColumn "folder_id" TText true None;
       mkColumn "type" TText true None;
       mkColumn "title" TText true None;
       text_column "situation"; text_column "task";
       text_column "action"; text_column "result";
       text_column "content"; tags_column]
      ++ timestamps
  end.

Definition foreign_keys_of (t : table) : list foreign_key :=
  match t with
  | Auth_users => []
  | Profiles => [mkForeignKey "id" Auth_users true]
  | Jobs | Stories | Notes => [mkForeignKey "user_id" Profiles true]
  | Prep_folders =>
      [mkForeignKey "user_id" Profiles true;
       mkForeignKey "parent_id" Prep_folders true]
  | Prep_items =>
      [mkForeignKey "user_id" Profiles true;
       mkForeignKey "folder_id" Prep_folders true]
  end.

Definition checks_of (t : table) : list check_constraint :=
  match t with
  | Prep_items => [mkCheck "type" [js "story"; js "note"]]
  | _ => []
  end.

(** *** Row-level security policies *)

Inductive command := SELECT | INSERT | UPDATE | DELETE.

Global Instance command_eq_dec : EqDecision command.
Proof. solve_decision. Defined.

Inductive sql_expr :=
  | AuthUid                      (* auth.uid() *)
  | Column (c : string).

(** The only predicate the migrations use: [a = b]. *)
Inductive sql_pred := SqlEq (a b : sql_expr).

(** [CREATE POLICY name ON table FOR command TO authenticated
      [USING (...)] [WITH CHECK (...)]] *)
Record policy := mkPolicy {
  pol_name : string;
  pol_table : table;
  pol_command : command;
  pol_using : option sql_pred;
  pol_with_check : option sql_pred;
}.

Definition owns (c : string) : sql_pred := SqlEq AuthUid (Column c).

Definition crud_policies (t : table) (what : string) (c : string)
    : list policy :=
  [mkPolicy ("Users can view own " +:+ what) t SELECT (Some (owns c)) None;
   mkPolicy ("Users can insert own " +:+ what) t INSERT None (Some (owns c));
   mkPolicy ("Users can update own " +:+ what) t UPDATE
            (Some (owns c)) (Some (owns c));
   mkPolicy ("Users can delete own " +:+ what) t DELETE (Some (owns c)) None].

Definition policies : list policy :=
  crud_policies Profiles "profile" "id"
  ++ crud_policies Jobs "jobs" "user_id"
  ++ crud_policies Stories "stories" "user_id"
  ++ crud_policies Notes "notes" "user_id"
  ++ crud_policies Prep_folders "folders" "user_id"
  ++ crud_policies Prep_items "prep items" "user_id".

(** Tables with [ENABLE ROW LEVEL SECURITY] that the client API serves. *)
Definition rls_enabled (t : table) : bool :=
  match t with Auth_users => false | _ => true end.

(** The column that holds the owning user of a row. *)
Definition owner_column (t : table) : string :=
  match t with Profiles | Auth_users => "id" | _ => "user_id" end.

(** *** Evaluation *)

(** The request context: the caller's [auth.uid()] ([None] for the
    anonymous role) and what [gen_random_uuid()], [now()] and
    [CURRENT_DATE] give during the statement. *)
Record env := mkEnv {
  env_uid : option jsstring;
  env_uuid : jsstring;
  env_now : jsstring;
  env_today : jsstring;
}.

Definition DB := table → list row.

Definition cell (r : row) (c : string) : value := default VNull (r !! c).

Definition eval_expr (e : env) (r : row) (x : sql_expr) : value :=
  match x with
  | AuthUid => from_option VText VNull (env_uid e)
  | Column c => cell r c
  end.

(** SQL equality: unknown ([None]) as soon as one side is [NULL]. *)
Definition eval_pred (e : env) (r : row) (p : sql_pred) : option bool :=
  match p with
  | SqlEq a b =>
      match eval_expr e r a, eval_expr e r b with
      | VNull, _ | _, VNull => None
      | x, y => Some (bool_decide (x = y))
      end
  end.

(** A policy expression lets a row through only when it is true. *)
Definition holds (e : env) (r : row) (p : option sql_pred) : bool :=
  match p with
  | None => true
  | Some p => bool_decide (eval_pred e r p = Some true)
  end.

Definition policies_for (t : table) (c : command) : list policy :=
  filter (λ p, pol_table p = t ∧ pol_command p = c) policies.

(** Permissive policies are or-ed; they are all [TO authenticated], so
    the anonymous role has none, and with no policy nothing passes. *)
Definition rls_using (e : env) (t : table) (c : command) (r : row) : bool :=
  bool_decide (is_Some (env_uid e)) &&
  existsb (λ p, holds e r (pol_using p)) (policies_for t c).

Definition rls_with_check (e : env) (t : table) (c : command) (r : row)
    : bool :=
  bool_decide (is_Some (env_uid e)) &&
  existsb (λ p, holds e r (pol_with_check p)) (policies_for t c).

Definition row_id (r : row) : option jsstring :=
  match r !! "id" with Some (VText s) => Some s | _ => None end.

Definition ids_of (rows : list row) : list jsstring := omap row_id rows.

Definition eval_default (e : env) (d : default_expr) : value :=
  match d with
  | DefText s => VText s
  | DefUuid => VText (env_uuid e)
  | DefNow => VText (env_now e)
  | DefToday => VText (env_today e)
  | DefEmptyArray => VArray []
  end.

(** The stored row of an [INSERT]: the request's cells, and for every
    column the request leaves out its default, else [NULL]. *)
Definition with_defaults (e : env) (t : table) (payload : row) : row :=
  foldr (λ cd r,
           match payload !! col_name cd with
           | Some _ => r
           | None =>
               <[col_name cd := from_option (eval_default e) VNull
                                            (col_default cd)]> r
           end)
        payload (columns_of t).

Definition known_columns (t : table) (payload : row) : bool :=
  bool_decide (dom payload ⊆ list_to_set (C := gset string)
                                         (col_name <$> columns_of t)).

Definition well_typed (cd : column_def) (v : value) : bool :=
  match v, col_type cd with
  | VNull, _ => negb (col_not_null cd)
  | VText _, TText => true
  | VArray _, TTextArray => true
  | _, _ => false
  end.

Definition columns_ok (t : table) (r : row) : bool :=
  forallb (λ cd, well_typed cd (cell r (col_name cd))) (columns_of t).

(** A [CHECK] fails only when it is false; on [NULL] it is unknown. *)
Definition checks_ok (t : table) (r : row) : bool :=
  forallb (λ c, match cell r (chk_column c) with
                | VText s => bool_decide (s ∈ chk_allowed c)
                | VNull => true
                | VArray _ => false
                end)
          (checks_of t).

Definition foreign_keys_ok (db : DB) (t : table) (r : row) : bool :=
  forallb (λ fk, match cell r (fk_column fk) with
                 | VText v => bool_decide (v ∈ ids_of (db (fk_target fk)))
                 | VNull => true
                 | VArray _ => false
                 end)
          (foreign_keys_of t).

(** *** Cascading deletes

    A reference [(t, i)] names the rows of [t] whose primary key is [i].
    Deleting a row deletes every row that points at it through a foreign
    key declared [ON DELETE CASCADE], and so on. *)

Definition ref : Type := table * jsstring.

Definition refs_of (db : DB) (t : table) : list ref :=
  (λ i, (t, i)) <$> ids_of (db t).

Definition all_refs (db : DB) : list ref := all_tables ≫= refs_of db.

(** The row [r] of [t] points at a row of [dead] through a cascading
    foreign key. *)
Definition cascades_from (dead : list ref) (t : table) (r : row) : bool :=
  existsb (λ fk, fk_on_delete_cascade fk &&
                 match cell r (fk_column fk) with
                 | VText v => bool_decide ((fk_target fk, v) ∈ dead)
                 | _ => false
                 end)
          (foreign_keys_of t).

(** The same through a key without [ON DELETE CASCADE] ([NO ACTION]). *)
Definition restricts (dead : list ref) (t : table) (r : row) : bool :=
  existsb (λ fk, negb (fk_on_delete_cascade fk) &&
                 match cell r (fk_column fk) with
                 | VText v => bool_decide ((fk_target fk, v) ∈ dead)
                 | _ => false
                 end)
          (foreign_keys_of t).

Definition referencing (db : DB) (dead : list ref) : list ref :=
  all_tables ≫= λ t,
    (λ i, (t, i)) <$> ids_of (filter (λ r, cascades_from dead t r) (db t)).

(** [n] rounds of the cascade. *)
Fixpoint cascade (n : nat) (db : DB) (dead : list ref) : list ref :=
  match n with
  | 0 => dead
  | S n' =>
      cascade n' db (dead ++ filter (λ x, x ∉ dead) (referencing db dead))
  end.

Definition row_count (db : DB) : nat :=
  sum_list ((λ t, length (db t)) <$> all_tables).

Definition is_dead (dead : list ref) (t : table) (r : row) : Prop :=
  match row_id r with Some i => (t, i) ∈ dead | None => False end.

Global Instance is_dead_dec dead t r : Decision (is_dead dead t r).
Proof. unfold is_dead. destruct (row_id r); apply _. Defined.

Definition remove_rows (db : DB) (dead : list ref) : DB :=
  λ t, filter (λ r, ¬ is_dead dead t r) (db t).

Definition restricted (db : DB) (dead : list ref) : bool :=
  existsb (λ t, existsb (λ r, bool_decide (¬ is_dead dead t r) &&
                              restricts dead t r) (db t))
          all_tables.

(** *** The client API

    One constructor per request shape the pages build with the
    [supabase] client; the index is the type of [data] on success. *)

Inductive storage_call : Type → Type :=
  (* .from(t).select('*').eq(c, v) *)
  | SelectEq (t : table) (c : string) (v : jsstring)
      : storage_call (list row)
  (* .from(t).select('*').order(c, { ascending }) *)
  | SelectOrdered (t : table) (c : string) (ascending : bool)
      : storage_call (list row)
  (* .from(t).select('*').eq(c, v).maybeSingle() *)
  | SelectMaybeSingle (t : table) (c : string) (v : jsstring)
      : storage_call (option row)
  (* .from(t).insert([payload]) *)
  | Insert (t : table) (payload : row) : storage_call unit
  (* .from(t).insert([payload]).select().single() *)
  | InsertReturning (t : table) (payload : row) : storage_call row
  (* .from(t).update(patch).eq(c, v) *)
  | UpdateEq (t : table) (patch : row) (c : string) (v : jsstring)
      : storage_call unit
  (* .from(t).delete().eq(c, v) *)
  | DeleteEq (t : table) (c : string) (v : jsstring) : storage_call unit.

Inductive error_code :=
  | UndefinedTable | UndefinedColumn | RlsViolation | NotNullViolation
  | CheckViolation | UniqueViolation | ForeignKeyViolation
  | MultipleRows | TransportFailure.

(** The [error] object of an answer. *)
Record api_error := mkError {
  err_code : error_code;
  err_message : jsstring;
}.

(** [{ data, error }] *)
Inductive result (R : Type) :=
  | Ok (data : R)
  | Err (error : api_error).
Arguments Ok {R} data.
Arguments Err {R} error.

Definition is_err {R} (r : result R) : bool :=
  match r with Ok _ => false | Err _ => true end.

Definition pg_error (c : error_code) : api_error :=
  mkError c
    match c with
    | UndefinedTable => js "relation does not exist"
    | UndefinedColumn => js "column does not exist"
    | RlsViolation => js "new row violates row-level security policy"
    | NotNullViolation => js "null value violates not-null constraint"
    | CheckViolation => js "new row violates check constraint"
    | UniqueViolation => js "duplicate key value violates unique constraint"
    | ForeignKeyViolation => js "violates foreign key constraint"
    | MultipleRows => js "JSON object requested, multiple rows returned"
    | TransportFailure => js "Failed to fetch"
    end.

(** *** Statements *)

Definition db_set (db : DB) (t : table) (rows : list row) : DB :=
  λ t', if decide (t' = t) then rows else db t'.

(** [.eq(c, v)]: the cell is the text [v]; [NULL] matches nothing. *)
Definition matching (c : string) (v : jsstring) (r : row) : Prop :=
  r !! c = Some (VText v).

Global Instance matching_dec c v r : Decision (matching c v r).
Proof. unfold matching. apply _. Defined.

Definition has_column (t : table) (c : string) : bool :=
  bool_decide (c ∈ col_name <$> columns_of t).

(** The rows a [SELECT] of the caller sees. *)
Definition visible (e : env) (db : DB) (t : table) : list row :=
  filter (λ r, rls_using e t SELECT r = true) (db t).

(** Text order by code units (the order of ISO dates and timestamps). *)
Fixpoint text_leb (a b : jsstring) : bool :=
  match a, b with
  | [], _ => true
  | _ :: _, [] => false
  | x :: a', y :: b' =>
      if (x <? y)%N then true
      else if (y <? x)%N then false
      else text_leb a' b'
  end.

(** [ORDER BY c ASC] puts [NULL] last, [ORDER BY c DESC] first. *)
Definition order_leb (c : string) (ascending : bool) (r1 r2 : row) : bool :=
  match cell r1 c, cell r2 c with
  | VText a, VText b => if ascending then text_leb a b else text_leb b a
  | VNull, VText _ => negb ascending
  | VText _, VNull => ascending
  | _, _ => true
  end.

Definition order_le (c : string) (ascending : bool) : relation row :=
  λ r1 r2, order_leb c ascending r1 r2 = true.

Global Instance order_le_dec c ascending r1 r2 :
  Decision (order_le c ascending r1 r2).
Proof. unfold order_le. apply _. Defined.

Definition order_by (c : string) (ascending : bool) (rows : list row)
    : list row :=
  merge_sort (order_le c ascending) rows.

Definition exec_select_eq (e : env) (db : DB) (t : table) (c : string)
    (v : jsstring) : result (list row) :=
  if negb (rls_enabled t) then Err (pg_error UndefinedTable)
  else if negb (has_column t c) then Err (pg_error UndefinedColumn)
  else Ok (filter (matching c v) (visible e db t)).

Definition exec_select_ordered (e : env) (db : DB) (t : table) (c : string)
    (ascending : bool) : result (list row) :=
  if negb (rls_enabled t) then Err (pg_error UndefinedTable)
  else if negb (has_column t c) then Err (pg_error UndefinedColumn)
  else Ok (order_by c ascending (visible e db t)).

(** [INSERT]; with [returning] the new row must also pass the [SELECT]
    policy.  The foreign keys are checked with the new row in place, so a
    row may point at itself. *)
Definition exec_insert (returning : bool) (e : env) (db : DB) (t : table)
    (payload : row) : result row * DB :=
  let r := with_defaults e t payload in
  let db' := db_set db t (db t ++ [r]) in
  if negb (rls_enabled t) then (Err (pg_error UndefinedTable), db)
  else if negb (known_columns t payload)
  then (Err (pg_error UndefinedColumn), db)
  else if negb (rls_with_check e t INSERT r)
  then (Err (pg_error RlsViolation), db)
  else if returning && negb (rls_using e t SELECT r)
  then (Err (pg_error RlsViolation), db)
  else if negb (columns_ok t r) then (Err (pg_error NotNullViolation), db)
  else if negb (checks_ok t r) then (Err (pg_error CheckViolation), db)
  else if match row_id r with
          | Some i => bool_decide (i ∈ ids_of (db t))
          | None => false
          end
  then (Err (pg_error UniqueViolation), db)
  else if negb (foreign_keys_ok db' t r)
  then (Err (pg_error ForeignKeyViolation), db)
  else (Ok r, db').

Definition db_foreign_keys_ok (db : DB) : bool :=
  forallb (λ t, forallb (foreign_keys_ok db t) (db t)) all_tables.

(** [UPDATE ... SET patch WHERE c = v]: the rows the caller may update
    take the cells of [patch]; the statement fails as a whole when a new
    row breaks the policy or a constraint. *)
Definition exec_update (e : env) (db : DB) (t : table) (patch : row)
    (c : string) (v : jsstring) : result unit * DB :=
  let hit (r : row) : Prop := matching c v r ∧ rls_using e t UPDATE r = true in
  let changed := (λ r, patch ∪ r) <$> filter hit (db t) in
  let db' :=
    db_set db t ((λ r, if decide (hit r) then patch ∪ r else r) <$> db t) in
  if negb (rls_enabled t) then (Err (pg_error UndefinedTable), db)
  else if negb (known_columns t patch && has_column t c)
  then (Err (pg_error UndefinedColumn), db)
  else if negb (forallb (rls_with_check e t UPDATE) changed)
  then (Err (pg_error RlsViolation), db)
  else if negb (forallb (columns_ok t) changed)
  then (Err (pg_error NotNullViolation), db)
  else if negb (forallb (checks_ok t) changed)
  then (Err (pg_error CheckViolation), db)
  else if negb (bool_decide (NoDup (ids_of (db' t))))
  then (Err (pg_error UniqueViolation), db)
  else if negb (db_foreign_keys_ok db')
  then (Err (pg_error ForeignKeyViolation), db)
  else (Ok (), db').

(** [DELETE ... WHERE c = v]: the rows the caller may delete go, and the
    cascade takes what hangs on them, whoever owns it. *)
Definition exec_delete (e : env) (db : DB) (t : table) (c : string)
    (v : jsstring) : result unit * DB :=
  let hit (r : row) : Prop := matching c v r ∧ rls_using e t DELETE r = true in
  let dead := cascade (row_count db) db
                      ((λ i, (t, i)) <$> ids_of (filter hit (db t))) in
  if negb (rls_enabled t) then (Err (pg_error UndefinedTable), db)
  else if negb (has_column t c) then (Err (pg_error UndefinedColumn), db)
  else if restricted db dead then (Err (pg_error ForeignKeyViolation), db)
  else (Ok (), remove_rows db dead).

(** The row-store's answer to a request, and the store afterwards. *)
Definition supabase_exec (e : env) {R} (call : storage_call R) (db : DB)
    : result R * DB :=
  match call in storage_call R return result R * DB with
  | SelectEq t c v => (exec_select_eq e db t c v, db)
  | SelectOrdered t c asc => (exec_select_ordered e db t c asc, db)
  | SelectMaybeSingle t c v =>
      (match exec_select_eq e db t c v with
       | Ok [] => Ok None
       | Ok [r] => Ok (Some r)
       | Ok _ => Err (pg_error MultipleRows)
       | Err x => Err x
       end, db)
  | Insert t payload =>
      match exec_insert false e db t payload with
      | (Ok _, db') => (Ok (), db')
      | (Err x, db') => (Err x, db')
      end
  | InsertReturning t payload => exec_insert true e db t payload
  | UpdateEq t patch c v => exec_update e db t patch c v
  | DeleteEq t c v => exec_delete e db t c v
  end.

(** ** Handlers as programs

    What a page handler does, in order: state writes, notifications,
    confirmation dialogs and awaited row-store requests. *)

Inductive toast :=
  | ToastSuccess (msg : jsstring)      (* toast.success(msg) *)
  | ToastError (msg : jsstring).       (* toast.error(msg) *)

Inductive prog (S : Type) : Type :=
  | Done
  | SetState (f : S → S) (k : prog S)
  | Notify (t : toast) (k : prog S)
  | Confirm (msg : jsstring) (k : bool → prog S)
  | Await {R : Type} (c : storage_call R) (k : result R → prog S).
Arguments Done {S}.
Arguments SetState {S} f k.
Arguments Notify {S} t k.
Arguments Confirm {S} msg k.
Arguments Await {S R} c k.

(** [p] and then [q]: a call of a synchronous helper, or of an [async]
    function that is the last thing its caller does. *)
Fixpoint and_then {S} (p q : prog S) : prog S :=
  match p with
  | Done => q
  | SetState f k => SetState f (and_then k q)
  | Notify t k => Notify t (and_then k q)
  | Confirm msg k => Confirm msg (λ b, and_then (k b) q)
  | Await c k => Await c (λ r, and_then (k r) q)
  end.

(** A request without the type of its answer, for traces. *)
Inductive request :=
  | ReqSelectEq (t : table) (c : string) (v : jsstring)
  | ReqSelectOrdered (t : table) (c : string) (ascending : bool)
  | ReqSelectMaybeSingle (t : table) (c : string) (v : jsstring)
  | ReqInsert (returning : bool) (t : table) (payload : row)
  | ReqUpdateEq (t : table) (patch : row) (c : string) (v : jsstring)
  | ReqDeleteEq (t : table) (c : string) (v : jsstring).

Definition request_of {R} (call : storage_call R) : request :=
  match call with
  | SelectEq t c v => ReqSelectEq t c v
  | SelectOrdered t c asc => ReqSelectOrdered t c asc
  | SelectMaybeSingle t c v => ReqSelectMaybeSingle t c v
  | Insert t payload => ReqInsert false t payload
  | InsertReturning t payload => ReqInsert true t payload
  | UpdateEq t patch c v => ReqUpdateEq t patch c v
  | DeleteEq t c v => ReqDeleteEq t c v
  end.

Definition is_read (q : request) : bool :=
  match q with
  | ReqSelectEq _ _ _ | ReqSelectOrdered _ _ _
  | ReqSelectMaybeSingle _ _ _ => true
  | _ => false
  end.

(** Whatever answers the requests: the row-store of the migrations
    ([supabase] below), or any other behaviour of the network and the
    service. *)
Record backend := mkBackend {
  b_store : Type;
  b_exec : ∀ R, storage_call R → b_store → result R * b_store;
}.

Definition supabase (e : env) : backend :=
  mkBackend DB (λ R call db, supabase_exec e call db).

Record outcome (S B : Type) := mkOutcome {
  o_state : S;                 (* the page state afterwards *)
  o_toasts : list toast;       (* notifications, in order *)
  o_requests : list (request * bool);
                               (* requests issued, in order, each with
                                  whether its answer was an error *)
  o_store : B;                 (* the store afterwards *)
}.
Arguments mkOutcome {S B}.
Arguments o_state {S B}.
Arguments o_toasts {S B}.
Arguments o_requests {S B}.
Arguments o_store {S B}.

(** Run a handler program from the page state [st] against the backend
    [B] in store [b]; [answer] is what the user clicks in [confirm]. *)
Fixpoint run {S} (B : backend) (answer : jsstring → bool) (p : prog S)
    (st : S) (b : b_store B) : outcome S (b_store B) :=
  match p with
  | Done => mkOutcome st [] [] b
  | SetState f k => run B answer k (f st) b
  | Notify t k =>
      let o := run B answer k st b in
      mkOutcome (o_state o) (t :: o_toasts o) (o_requests o) (o_store o)
  | Confirm msg k => run B answer (k (answer msg)) st b
  | Await call k =>
      let '(r, b') := b_exec B _ call b in
      let o := run B answer (k r) st b' in
      mkOutcome (o_state o) (o_toasts o)
                ((request_of call, is_err r) :: o_requests o) (o_store o)
  end.

(** The first request of the run failed. *)
Definition first_request_failed {S B} (o : outcome S B) : Prop :=
  snd <$> head (o_requests o) = Some true.

(** Some request of the run failed. *)
Definition some_request_failed {S B} (o : outcome S B) : Prop :=
  true ∈ snd <$> o_requests o.

(** The requests a program can issue, whatever the answers are. *)
Fixpoint may_issue {S} (p : prog S) (q : request) : Prop :=
  match p with
  | Done => False
  | SetState _ k | Notify _ k => may_issue k q
  | Confirm _ k => ∃ b, may_issue (k b) q
  | Await call k => q = request_of call ∨ ∃ r, may_issue (k r) q
  end.

(** A backend that is out of reach: every request fails. *)
Definition offline : backend :=
  mkBackend unit (λ R _ b, (Err (pg_error TransportFailure), b)).

(** [error.message || fallback] *)
Definition message_or (e : api_error) (fallback : jsstring) : jsstring :=
  if truthy (err_message e) then err_message e else fallback.

(** Cells of a row object as the page reads them. *)
Definition text_of (r : row) (c : string) : jsstring :=
  match cell r c with VText s => s | _ => [] end.
Definition text_opt_of (r : row) (c : string) : option jsstring :=
  match cell r c with VText s => Some s | _ => None end.
Definition array_of (r : row) (c : string) : list jsstring :=
  match cell r c with VArray l => l | _ => [] end.

(** [string | null] as a JSON value. *)
Definition nullable (o : option jsstring) : value :=
  from_option VText VNull o.

(** [{ ...obj, user_id: user?.id }]: an [undefined] value is not sent. *)
Definition with_user_id (user : option jsstring) (obj : row) : row :=
  match user with
  | Some uid => <["user_id" := VText uid]> obj
  | None => delete "user_id" obj
  end.

(** ** The [Preparation] page *)

(** [f.parent_id === parentId] over the items of the selected folder. *)
Definition selectedFolderItems (items : list PrepItem)
    (selectedFolderId : option jsstring) : list PrepItem :=
  filter (λ item, Some (pi_folder_id item) = selectedFolderId) items.

(** Row objects of [prep_folders] and [prep_items] under the page's
    interfaces.  [type] is ['story'] or ['note'] by the table's [CHECK];
    the page treats whatever is not ['story'] as a note. *)
Definition folder_of_row (r : row) : PrepFolder :=
  {| pf_id := text_of r "id";
     pf_name := text_of r "name";
     pf_parent_id := text_opt_of r "parent_id" |}.

Definition item_type_of (s : jsstring) : item_type :=
  if decide (s = js "story") then story else note.

Definition item_of_row (r : row) : PrepItem :=
  {| pi_id := text_of r "id";
     pi_folder_id := text_of r "folder_id";
     pi_type := item_type_of (text_of r "type");
     pi_title := text_of r "title";
     pi_situation := text_of r "situation";
     pi_task := text_of r "task";
     pi_action := text_of r "action";
     pi_result := text_of r "result";
     pi_content := text_of r "content";
     pi_tags := array_of r "tags";
     pi_updated_at := text_of r "updated_at" |}.

Module Preparation.

(** The [formData] cell. *)
Record FormData := mkFormData {
  title : jsstring;
  situation : jsstring;
  task : jsstring;
  action : jsstring;
  result : jsstring;
  content : jsstring;
  tags : list jsstring;
}.

(** [{ ...formData, tags }] *)
Definition with_tags (fd : FormData) (l : list jsstring) : FormData :=
  {| title := title fd; situation := situation fd; task := task fd;
     action := action fd; result := result fd; content := content fd;
     tags := l |}.

Definition empty_form : FormData := mkFormData [] [] [] [] [] [] [].

(** [formData] as the object a request carries. *)
Definition form_object (fd : FormData) : row :=
  {[ "title" := VText (title fd);
     "situation" := VText (situation fd);
     "task" := VText (task fd);
     "action" := VText (action fd);
     "result" := VText (result fd);
     "content" := VText (content fd);
     "tags" := VArray (tags fd) ]}.

Inductive modal_mode := mode_folder | mode_story | mode_note.

(** The string a [modalMode] is. *)
Definition mode_text (m : modal_mode) : jsstring :=
  match m with
  | mode_folder => js "folder"
  | mode_story => js "story"
  | mode_note => js "note"
  end.

Definition mode_of_type (t : item_type) : modal_mode :=
  match t with story => mode_story | note => mode_note end.

(** The [useState] cells of the component. *)
Record State := mkState {
  folders : list PrepFolder;
  items : list PrepItem;
  isLoading : bool;
  selectedFolderId : option jsstring;
  expandedFolders : gset jsstring;
  isModalOpen : bool;
  modalMode : modal_mode;
  editingFolder : option PrepFolder;
  editingItem : option PrepItem;
  folderName : jsstring;
  itemTags : jsstring;
  tagInput : jsstring;
  formData : FormData;
}.

Definition initial : State :=
  mkState [] [] true None ∅ false mode_folder None None [] [] []
          empty_form.

Definition setFolders (v : list PrepFolder) (s : State) : State :=
  {| folders := v; items := items s; isLoading := isLoading s;
     selectedFolderId := selectedFolderId s;
     expandedFolders := expandedFolders s; isModalOpen := isModalOpen s;
     modalMode := modalMode s; editingFolder := editingFolder s;
     editingItem := editingItem s; folderName := folderName s;
     itemTags := itemTags s; tagInput := tagInput s;
     formData := formData s |}.
Definition setItems (v : list PrepItem) (s : State) : State :=
  {| folders := folders s; items := v; isLoading := isLoading s;
     selectedFolderId := selectedFolderId s;
     expandedFolders := expandedFolders s; isModalOpen := isModalOpen s;
     modalMode := modalMode s; editingFolder := editingFolder s;
     editingItem := editingItem s; folderName := folderName s;
     itemTags := itemTags s; tagInput := tagInput s;
     formData := formData s |}.
Definition setIsLoading (v : bool) (s : State) : State :=
  {| folders := folders s; items := items s; isLoading := v;
     selectedFolderId := selectedFolderId s;
     expandedFolders := expandedFolders s; isModalOpen := isModalOpen s;
     modalMode := modalMode s; editingFolder := editingFolder s;
     editingItem := editingItem s; folderName := folderName s;
     itemTags := itemTags s; tagInput := tagInput s;
     formData := formData s |}.
Definition setSelectedFolderId (v : option jsstring) (s : State) : State :=
  {| folders := folders s; items := items s; isLoading := isLoading s;
     selectedFolderId := v; expandedFolders := expandedFolders s;
     isModalOpen := isModalOpen s; modalMode := modalMode s;
     editingFolder := editingFolder s; editingItem := editingItem s;
     folderName := folderName s; itemTags := itemTags s;
     tagInput := tagInput s; formData := formData s |}.
Definition setExpandedFolders (v : gset jsstring) (s : State) : State :=
  {| folders := folders s; items := items s; isLoading := isLoading s;
     selectedFolderId := selectedFolderId s; expandedFolders := v;
     isModalOpen := isModalOpen s; modalMode := modalMode s;
     editingFolder := editingFolder s; editingItem := editingItem s;
     folderName := folderName s; itemTags := itemTags s;
     tagInput := tagInput s; formData := formData s |}.
Definition setIsModalOpen (v : bool) (s : State) : State :=
  {| folders := folders s; items := items s; isLoading := isLoading s;
     selectedFolderId := selectedFolderId s;
     expandedFolders := expandedFolders s; isModalOpen := v;
     modalMode := modalMode s; editingFolder := editingFolder s;
     editingItem := editingItem s; folderName := folderName s;
     itemTags := itemTags s; tagInput := tagInput s;
     formData := formData s |}.
Definition setModalMode (v : modal_mode) (s : State) : State :=
  {| folders := folders s; items := items s; isLoading := isLoading s;
     selectedFolderId := selectedFolderId s;
     expandedFolders := expandedFolders s; isModalOpen := isModalOpen s;
     modalMode := v; editingFolder := editingFolder s;
     editingItem := editingItem s; folderName := folderName s;
     itemTags := itemTags s; tagInput := tagInput s;
     formData := formData s |}.
Definition setEditingFolder (v : option PrepFolder) (s : State) : State :=
  {| folders := folders s; items := items s; isLoading := isLoading s;
     selectedFolderId := selectedFolderId s;
     expandedFolders := expandedFolders s; isModalOpen := isModalOpen s;
     modalMode := modalMode s; editingFolder := v;
     editingItem := editingItem s; folderName := folderName s;
     itemTags := itemTags s; tagInput := tagInput s;
     formData := formData s |}.
Definition setEditingItem (v : option PrepItem) (s : State) : State :=
  {| folders := folders s; items := items s; isLoading := isLoading s;
     selectedFolderId := selectedFolderId s;
     expandedFolders := expandedFolders s; isModalOpen := isModalOpen s;
     modalMode := modalMode s; editingFolder := editingFolder s;
     editingItem := v; folderName := folderName s; itemTags := itemTags s;
     tagInput := tagInput s; formData := formData s |}.
Definition setFolderName (v : jsstring) (s : State) : State :=
  {| folders := folders s; items := items s; isLoading := isLoading s;
     selectedFolderId := selectedFolderId s;
     expandedFolders := expandedFolders s; isModalOpen := isModalOpen s;
     modalMode := modalMode s; editingFolder := editingFolder s;
     editingItem := editingItem s; folderName := v; itemTags := itemTags s;
     tagInput := tagInput s; formData := formData s |}.
Definition setTagInput (v : jsstring) (s : State) : State :=
  {| folders := folders s; items := items s; isLoading := isLoading s;
     selectedFolderId := selectedFolderId s;
     expandedFolders := expandedFolders s; isModalOpen := isModalOpen s;
     modalMode := modalMode s; editingFolder := editingFolder s;
     editingItem := editingItem s; folderName := folderName s;
     itemTags := itemTags s; tagInput := v; formData := formData s |}.
Definition setFormData (v : FormData) (s : State) : State :=
  {| folders := folders s; items := items s; isLoading := isLoading s;
     selectedFolderId := selectedFolderId s;
     expandedFolders := expandedFolders s; isModalOpen := isModalOpen s;
     modalMode := modalMode s; editingFolder := editingFolder s;
     editingItem := editingItem s; folderName := folderName s;
     itemTags := itemTags s; tagInput := tagInput s; formData := v |}.

Section handlers.
(** [user?.id] of [useAuth()], [None] when nobody is signed in, and
    [new Date().toISOString()] at the time of the event. *)
Variable user : option jsstring.
Variable now : jsstring.
(** The render the handler belongs to. *)
Variable s : State.

Definition finish_loading : prog State := SetState (setIsLoading false) Done.

Definition fetchData : prog State :=
  match user with
  | None => Done
  | Some uid =>
      Await (SelectEq Prep_folders "user_id" uid) (λ foldersRes,
      Await (SelectEq Prep_items "user_id" uid) (λ itemsRes,
        match foldersRes, itemsRes with
        | Ok folderRows, Ok itemRows =>
            let data := folder_of_row <$> folderRows in
            SetState (setFolders data)
            (SetState (setItems (item_of_row <$> itemRows))
            (if negb (truthy_opt (selectedFolderId s))
                && bool_decide (0 < length data)
             then
               match List.find (λ f, negb (truthy_opt (pf_parent_id f))) data
               with
               | Some rootFolder =>
                   SetState (setSelectedFolderId (Some (pf_id rootFolder)))
                            finish_loading
               | None => finish_loading
               end
             else finish_loading))
        | _, _ =>
            Notify (ToastError (js "Failed to fetch data")) finish_loading
        end))
  end.

Definition root_folder_object (uid : jsstring) : row :=
  {[ "user_id" := VText uid; "name" := VText (js "Root");
     "parent_id" := VNull ]}.

Definition createRootFolder : prog State :=
  match user with
  | None => Done
  | Some uid =>
      Await (InsertReturning Prep_folders (root_folder_object uid)) (λ res,
        match res with
        | Ok data =>
            SetState (setFolders (folders s ++ [folder_of_row data]))
            (SetState (setSelectedFolderId (Some (pf_id (folder_of_row data))))
            (Notify (ToastSuccess (js "Root folder created")) Done))
        | Err _ =>
            Notify (ToastError (js "Failed to create root folder")) Done
        end)
  end.

Definition rootFolders : option (list FolderTreeNode) :=
  buildFolderTree (folders s) (expandedFolders s) None.

Definition toggleFolder (folderId : jsstring) : prog State :=
  SetState (setExpandedFolders
              (if decide (folderId ∈ expandedFolders s)
               then expandedFolders s ∖ {[ folderId ]}
               else expandedFolders s ∪ {[ folderId ]}))
           Done.

Definition handleOpenFolderModal (folder : option PrepFolder) : prog State :=
  (match folder with
   | Some f => λ k, SetState (setEditingFolder (Some f))
                      (SetState (setFolderName (pf_name f)) k)
   | None => λ k, SetState (setEditingFolder None)
                    (SetState (setFolderName []) k)
   end)
    (SetState (setModalMode mode_folder) (SetState (setIsModalOpen true) Done)).

Definition form_of_item (item : PrepItem) : FormData :=
  {| title := pi_title item; situation := pi_situation item;
     task := pi_task item; action := pi_action item;
     result := pi_result item; content := pi_content item;
     tags := pi_tags item |}.

Definition handleOpenItemModal (type : item_type) (item : option PrepItem)
    : prog State :=
  if negb (truthy_opt (selectedFolderId s))
  then Notify (ToastError (js "Please select a folder first")) Done
  else
    (match item with
     | Some i => λ k, SetState (setEditingItem (Some i))
                        (SetState (setFormData (form_of_item i)) k)
     | None => λ k, SetState (setEditingItem None)
                      (SetState (setFormData empty_form) k)
     end)
      (SetState (setModalMode (mode_of_type type))
                (SetState (setIsModalOpen true) Done)).

Definition handleCloseModal : prog State :=
  SetState (setIsModalOpen false)
  (SetState (setEditingFolder None)
  (SetState (setEditingItem None)
  (SetState (setTagInput []) Done))).

Definition handleAddTag : prog State :=
  let tag := trim (tagInput s) in
  if truthy tag && negb (bool_decide (tag ∈ tags (formData s)))
  then SetState (setFormData (with_tags (formData s)
                                        (tags (formData s) ++ [tag])))
                (SetState (setTagInput []) Done)
  else Done.

Definition handleRemoveTag (tagToRemove : jsstring) : prog State :=
  SetState (setFormData
              (with_tags (formData s)
                         (filter (λ tag, tag ≠ tagToRemove)
                                 (tags (formData s)))))
           Done.
End handlers.

Section saving.
Variable user : option jsstring.
Variable now : jsstring.
Variable s : State.

(** [{ ...f, name: folderName }] *)
Definition renamed (f : PrepFolder) (n : jsstring) : PrepFolder :=
  {| pf_id := pf_id f; pf_name := n; pf_parent_id := pf_parent_id f |}.

Definition rename_object : row :=
  {[ "name" := VText (folderName s); "updated_at" := VText now ]}.

Definition new_folder_object : row :=
  with_user_id user
    {[ "name" := VText (folderName s);
       "parent_id" := nullable (selectedFolderId s) ]}.

Definition handleSaveFolder : prog State :=
  if negb (truthy (trim (folderName s)))
  then Notify (ToastError (js "Folder name is required")) Done
  else
    match editingFolder s with
    | Some editing =>
        Await (UpdateEq Prep_folders rename_object "id" (pf_id editing))
          (λ res,
             match res with
             | Ok _ =>
                 SetState
                   (setFolders
                      ((λ f, if decide (pf_id f = pf_id editing)
                             then renamed f (folderName s) else f)
                         <$> folders s))
                 (Notify (ToastSuccess (js "Folder renamed"))
                 (and_then handleCloseModal (fetchData user s)))
             | Err error =>
                 Notify (ToastError
                           (message_or error (js "Failed to save folder")))
                        Done
             end)
    | None =>
        Await (InsertReturning Prep_folders new_folder_object)
          (λ res,
             match res with
             | Ok data =>
                 SetState (setFolders (folders s ++ [folder_of_row data]))
                 (Notify (ToastSuccess (js "Folder created"))
                 (and_then handleCloseModal (fetchData user s)))
             | Err error =>
                 Notify (ToastError
                           (message_or error (js "Failed to save folder")))
                        Done
             end)
    end.

(** [{ ...formData, updated_at: new Date().toISOString() }] *)
Definition item_update_object : row :=
  <["updated_at" := VText now]> (form_object (formData s)).

(** [{ user_id: user?.id, folder_id: selectedFolderId, type: modalMode,
       ...formData }] *)
Definition new_item_object (folder : jsstring) : row :=
  form_object (formData s)
  ∪ with_user_id user
      {[ "folder_id" := VText folder;
         "type" := VText (mode_text (modalMode s)) ]}.

Definition handleSaveItem : prog State :=
  if negb (truthy (trim (title (formData s))))
  then Notify (ToastError (js "Title is required")) Done
  else
    match selectedFolderId s with
    | Some folder =>
        if negb (truthy folder)
        then Notify (ToastError (js "Please select a folder")) Done
        else
          match editingItem s with
          | Some editing =>
              Await (UpdateEq Prep_items item_update_object "id"
                              (pi_id editing))
                (λ res,
                   match res with
                   | Ok _ =>
                       Notify (ToastSuccess (js "Item updated"))
                       (and_then handleCloseModal (fetchData user s))
                   | Err error =>
                       Notify (ToastError
                                 (message_or error (js "Failed to save item")))
                              Done
                   end)
          | None =>
              Await (Insert Prep_items (new_item_object folder))
                (λ res,
                   match res with
                   | Ok _ =>
                       Notify (ToastSuccess (js "Item created"))
                       (and_then handleCloseModal (fetchData user s))
                   | Err error =>
                       Notify (ToastError
                                 (message_or error (js "Failed to save item")))
                              Done
                   end)
          end
    | None => Notify (ToastError (js "Please select a folder")) Done
    end.

Definition handleDeleteFolder (id : jsstring) : prog State :=
  Confirm (js "Delete this folder and all its contents?") (λ yes,
    if negb yes then Done
    else
      Await (DeleteEq Prep_folders "id" id) (λ res,
        match res with
        | Ok _ =>
            Notify (ToastSuccess (js "Folder deleted"))
              ((if decide (selectedFolderId s = Some id)
                then SetState (setSelectedFolderId None)
                else λ k, k)
                 (fetchData user s))
        | Err _ => Notify (ToastError (js "Failed to delete folder")) Done
        end)).

Definition handleDeleteItem (id : jsstring) : prog State :=
  Confirm (js "Delete this item?") (λ yes,
    if negb yes then Done
    else
      Await (DeleteEq Prep_items "id" id) (λ res,
        match res with
        | Ok _ =>
            Notify (ToastSuccess (js "Item deleted")) (fetchData user s)
        | Err _ => Notify (ToastError (js "Failed to delete item")) Done
        end)).
End saving.

(** What the user (or the mounting of the component) can trigger, as the
    JSX binds it. *)
Inductive field :=
  | f_title | f_situation | f_task | f_action | f_result | f_content.

(** [{ ...formData, field: v }] *)
Definition with_field (fd : FormData) (f : field) (v : jsstring) : FormData :=
  match f with
  | f_title => mkFormData v (situation fd) (task fd) (action fd) (result fd)
                          (content fd) (tags fd)
  | f_situation => mkFormData (title fd) v (task fd) (action fd) (result fd)
                              (content fd) (tags fd)
  | f_task => mkFormData (title fd) (situation fd) v (action fd) (result fd)
                         (content fd) (tags fd)
  | f_action => mkFormData (title fd) (situation fd) (task fd) v (result fd)
                           (content fd) (tags fd)
  | f_result => mkFormData (title fd) (situation fd) (task fd) (action fd) v
                           (content fd) (tags fd)
  | f_content => mkFormData (title fd) (situation fd) (task fd) (action fd)
                            (result fd) v (tags fd)
  end.

Inductive event :=
  | Mount                                   (* useEffect(fetchData, []) *)
  | ClickCreateRootFolder
  | ClickChevron (folderId : jsstring)      (* toggleFolder(node.id) *)
  | ClickFolder (folderId : jsstring)       (* setSelectedFolderId(node.id) *)
  | OpenFolderModal (folder : option PrepFolder)
  | ClickDeleteFolder (id : jsstring)
  | OpenItemModal (type : item_type) (item : option PrepItem)
  | ClickDeleteItem (id : jsstring)
  | CloseModal
  | SubmitFolderForm
  | SubmitItemForm
  | TypeFolderName (v : jsstring)
  | TypeField (f : field) (v : jsstring)
  | TypeTagInput (v : jsstring)
  | ClickAddTag
  | ClickRemoveTag (tag : jsstring).

Definition handle (user : option jsstring) (now : jsstring) (s : State)
    (ev : event) : prog State :=
  match ev with
  | Mount => fetchData user s
  | ClickCreateRootFolder => createRootFolder user s
  | ClickChevron folderId => toggleFolder s folderId
  | ClickFolder folderId => SetState (setSelectedFolderId (Some folderId)) Done
  | OpenFolderModal folder => handleOpenFolderModal folder
  | ClickDeleteFolder id => handleDeleteFolder user s id
  | OpenItemModal type item => handleOpenItemModal s type item
  | ClickDeleteItem id => handleDeleteItem user s id
  | CloseModal => handleCloseModal
  | SubmitFolderForm => handleSaveFolder user now s
  | SubmitItemForm => handleSaveItem user now s
  | TypeFolderName v => SetState (setFolderName v) Done
  | TypeField f v => SetState (setFormData (with_field (formData s) f v)) Done
  | TypeTagInput v => SetState (setTagInput v) Done
  | ClickAddTag => handleAddTag s
  | ClickRemoveTag tag => handleRemoveTag s tag
  end.

End Preparation.

(** ** The [Dashboard] page

    The cell [filteredJobs] is recomputed from [jobs], [searchQuery] and
    [statusFilter] by an effect after every change of one of them; it
    carries nothing of its own and is left out. *)

Module Dashboard.

(** [interface Job]; the fields carry the prefix [job_]. *)
Record Job := mkJob {
  job_id : jsstring;
  job_role : jsstring;
  job_company : jsstring;
  job_status : jsstring;
  job_applied_date : jsstring;
  job_job_link : jsstring;
  job_notes : jsstring;
}.

Definition job_of_row (r : row) : Job :=
  {| job_id := text_of r "id"; job_role := text_of r "role";
     job_company := text_of r "company"; job_status := text_of r "status";
     job_applied_date := text_of r "applied_date";
     job_job_link := text_of r "job_link"; job_notes := text_of r "notes" |}.

Record FormData := mkFormData {
  role : jsstring;
  company : jsstring;
  status : jsstring;
  applied_date : jsstring;
  job_link : jsstring;
  notes : jsstring;
}.

Definition form_object (fd : FormData) : row :=
  {[ "role" := VText (role fd);
     "company" := VText (company fd);
     "status" := VText (status fd);
     "applied_date" := VText (applied_date fd);
     "job_link" := VText (job_link fd);
     "notes" := VText (notes fd) ]}.

Definition form_of_job (j : Job) : FormData :=
  {| role := job_role j; company := job_company j; status := job_status j;
     applied_date := job_applied_date j; job_link := job_job_link j;
     notes := job_notes j |}.

(** The empty form; [today] is [new Date().toISOString().split('T')[0]]. *)
Definition empty_form (today : jsstring) : FormData :=
  mkFormData [] [] (js "Applied") today [] [].

Record State := mkState {
  jobs : list Job;
  isLoading : bool;
  searchQuery : jsstring;
  statusFilter : jsstring;
  isModalOpen : bool;
  editingJob : option Job;
  formData : FormData;
}.

Definition initial (today : jsstring) : State :=
  mkState [] true [] (js "all") false None (empty_form today).

Definition setJobs (v : list Job) (s : State) : State :=
  {| jobs := v; isLoading := isLoading s; searchQuery := searchQuery s;
     statusFilter := statusFilter s; isModalOpen := isModalOpen s;
     editingJob := editingJob s; formData := formData s |}.
Definition setIsLoading (v : bool) (s : State) : State :=
  {| jobs := jobs s; isLoading := v; searchQuery := searchQuery s;
     statusFilter := statusFilter s; isModalOpen := isModalOpen s;
     editingJob := editingJob s; formData := formData s |}.
Definition setSearchQuery (v : jsstring) (s : State) : State :=
  {| jobs := jobs s; isLoading := isLoading s; searchQuery := v;
     statusFilter := statusFilter s; isModalOpen := isModalOpen s;
     editingJob := editingJob s; formData := formData s |}.
Definition setStatusFilter (v : jsstring) (s : State) : State :=
  {| jobs := jobs s; isLoading := isLoading s; searchQuery := searchQuery s;
     statusFilter := v; isModalOpen := isModalOpen s;
     editingJob := editingJob s; formData := formData s |}.
Definition setIsModalOpen (v : bool) (s : State) : State :=
  {| jobs := jobs s; isLoading := isLoading s; searchQuery := searchQuery s;
     statusFilter := statusFilter s; isModalOpen := v;
     editingJob := editingJob s; formData := formData s |}.
Definition setEditingJob (v : option Job) (s : State) : State :=
  {| jobs := jobs s; isLoading := isLoading s; searchQuery := searchQuery s;
     statusFilter := statusFilter s; isModalOpen := isModalOpen s;
     editingJob := v; formData := formData s |}.
Definition setFormData (v : FormData) (s : State) : State :=
  {| jobs := jobs s; isLoading := isLoading s; searchQuery := searchQuery s;
     statusFilter := statusFilter s; isModalOpen := isModalOpen s;
     editingJob := editingJob s; formData := v |}.

Section handlers.
Variable user : option jsstring.
Variable now : jsstring.
Variable today : jsstring.
Variable s : State.

Definition fetchJobs : prog State :=
  Await (SelectOrdered Jobs "applied_date" false) (λ res,
    match res with
    | Ok data =>
        SetState (setJobs (job_of_row <$> data))
                 (SetState (setIsLoading false) Done)
    | Err _ =>
        Notify (ToastError (js "Failed to fetch jobs"))
               (SetState (setIsLoading false) Done)
    end).

Definition handleOpenModal (job : option Job) : prog State :=
  (match job with
   | Some j => λ k, SetState (setEditingJob (Some j))
                      (SetState (setFormData (form_of_job j)) k)
   | None => λ k, SetState (setEditingJob None)
                    (SetState (setFormData (empty_form today)) k)
   end)
    (SetState (setIsModalOpen true) Done).

Definition handleCloseModal : prog State :=
  SetState (setIsModalOpen false) (SetState (setEditingJob None) Done).

Definition job_update_object : row :=
  <["updated_at" := VText now]> (form_object (formData s)).

Definition new_job_object : row :=
  with_user_id user (form_object (formData s)).

Definition handleSubmit : prog State :=
  if negb (truthy (trim (role (formData s))))
     || negb (truthy (trim (company (formData s))))
  then Notify (ToastError (js "Role and Company are required")) Done
  else
    match editingJob s with
    | Some editing =>
        Await (UpdateEq Jobs job_update_object "id" (job_id editing)) (λ res,
          match res with
          | Ok _ =>
              Notify (ToastSuccess (js "Job updated successfully"))
                     (and_then handleCloseModal fetchJobs)
          | Err error =>
              Notify (ToastError (message_or error (js "Failed to save job")))
                     Done
          end)
    | None =>
        Await (Insert Jobs new_job_object) (λ res,
          match res with
          | Ok _ =>
              Notify (ToastSuccess (js "Job added successfully"))
                     (and_then handleCloseModal fetchJobs)
          | Err error =>
              Notify (ToastError (message_or error (js "Failed to save job")))
                     Done
          end)
    end.

Definition handleDelete (id : jsstring) : prog State :=
  Confirm (js "Are you sure you want to delete this job?") (λ yes,
    if negb yes then Done
    else
      Await (DeleteEq Jobs "id" id) (λ res,
        match res with
        | Ok _ =>
            Notify (ToastSuccess (js "Job deleted successfully")) fetchJobs
        | Err _ => Notify (ToastError (js "Failed to delete job")) Done
        end)).
End handlers.
End Dashboard.

(** ** The [Stories] page *)

Module StoriesPage.

(** [interface Story]; the fields carry the prefix [story_]. *)
Record Story := mkStory {
  story_id : jsstring;
  story_title : jsstring;
  story_situation : jsstring;
  story_task : jsstring;
  story_action : jsstring;
  story_result : jsstring;
  story_tags : list jsstring;
}.

Definition story_of_row (r : row) : Story :=
  {| story_id := text_of r "id"; story_title := text_of r "title";
     story_situation := text_of r "situation";
     story_task := text_of r "task"; story_action := text_of r "action";
     story_result := text_of r "result"; story_tags := array_of r "tags" |}.

Record FormData := mkFormData {
  title : jsstring;
  situation : jsstring;
  task : jsstring;
  action : jsstring;
  result : jsstring;
  tags : list jsstring;
}.

Definition with_tags (fd : FormData) (l : list jsstring) : FormData :=
  {| title := title fd; situation := situation fd; task := task fd;
     action := action fd; result := result fd; tags := l |}.

Definition empty_form : FormData := mkFormData [] [] [] [] [] [].

Definition form_of_story (x : Story) : FormData :=
  {| title := story_title x; situation := story_situation x;
     task := story_task x; action := story_action x;
     result := story_result x; tags := story_tags x |}.

Definition form_object (fd : FormData) : row :=
  {[ "title" := VText (title fd);
     "situation" := VText (situation fd);
     "task" := VText (task fd);
     "action" := VText (action fd);
     "result" := VText (result fd);
     "tags" := VArray (tags fd) ]}.

Record State := mkState {
  stories : list Story;
  isLoading : bool;
  isModalOpen : bool;
  editingStory : option Story;
  searchQuery : jsstring;
  tagInput : jsstring;
  formData : FormData;
}.

Definition initial : State := mkState [] true false None [] [] empty_form.

Definition setStories (v : list Story) (s : State) : State :=
  {| stories := v; isLoading := isLoading s; isModalOpen := isModalOpen s;
     editingStory := editingStory s; searchQuery := searchQuery s;
     tagInput := tagInput s; formData := formData s |}.
Definition setIsLoading (v : bool) (s : State) : State :=
  {| stories := stories s; isLoading := v; isModalOpen := isModalOpen s;
     editingStory := editingStory s; searchQuery := searchQuery s;
     tagInput := tagInput s; formData := formData s |}.
Definition setIsModalOpen (v : bool) (s : State) : State :=
  {| stories := stories s; isLoading := isLoading s; isModalOpen := v;
     editingStory := editingStory s; searchQuery := searchQuery s;
     tagInput := tagInput s; formData := formData s |}.
Definition setEditingStory (v : option Story) (s : State) : State :=
  {| stories := stories s; isLoading := isLoading s;
     isModalOpen := isModalOpen s; editingStory := v;
     searchQuery := searchQuery s; tagInput := tagInput s;
     formData := formData s |}.
Definition setSearchQuery (v : jsstring) (s : State) : State :=
  {| stories := stories s; isLoading := isLoading s;
     isModalOpen := isModalOpen s; editingStory := editingStory s;
     searchQuery := v; tagInput := tagInput s; formData := formData s |}.
Definition setTagInput (v : jsstring) (s : State) : State :=
  {| stories := stories s; isLoading := isLoading s;
     isModalOpen := isModalOpen s; editingStory := editingStory s;
     searchQuery := searchQuery s; tagInput := v; formData := formData s |}.
Definition setFormData (v : FormData) (s : State) : State :=
  {| stories := stories s; isLoading := isLoading s;
     isModalOpen := isModalOpen s; editingStory := editingStory s;
     searchQuery := searchQuery s; tagInput := tagInput s; formData := v |}.

Section handlers.
Variable user : option jsstring.
Variable now : jsstring.
Variable s : State.

Definition fetchStories : prog State :=
  Await (SelectOrdered Stories "created_at" false) (λ res,
    match res with
    | Ok data =>
        SetState (setStories (story_of_row <$> data))
                 (SetState (setIsLoading false) Done)
    | Err _ =>
        Notify (ToastError (js "Failed to fetch stories"))
               (SetState (setIsLoading false) Done)
    end).

Definition handleOpenModal (x : option Story) : prog State :=
  (match x with
   | Some x => λ k, SetState (setEditingStory (Some x))
                      (SetState (setFormData (form_of_story x)) k)
   | None => λ k, SetState (setEditingStory None)
                    (SetState (setFormData empty_form) k)
   end)
    (SetState (setTagInput []) (SetState (setIsModalOpen true) Done)).

Definition handleCloseModal : prog State :=
  SetState (setIsModalOpen false) (SetState (setEditingStory None) Done).

Definition handleAddTag : prog State :=
  let tag := trim (tagInput s) in
  if truthy tag && negb (bool_decide (tag ∈ tags (formData s)))
  then SetState (setFormData (with_tags (formData s)
                                        (tags (formData s) ++ [tag])))
                (SetState (setTagInput []) Done)
  else Done.

Definition handleRemoveTag (tagToRemove : jsstring) : prog State :=
  SetState (setFormData
              (with_tags (formData s)
                         (filter (λ tag, tag ≠ tagToRemove)
                                 (tags (formData s)))))
           Done.

Definition story_update_object : row :=
  <["updated_at" := VText now]> (form_object (formData s)).

Definition new_story_object : row :=
  with_user_id user (form_object (formData s)).

Definition handleSubmit : prog State :=
  if negb (truthy (trim (title (formData s))))
  then Notify (ToastError (js "Title is required")) Done
  else
    match editingStory s with
    | Some editing =>
        Await (UpdateEq Stories story_update_object "id" (story_id editing))
          (λ res,
             match res with
             | Ok _ =>
                 Notify (ToastSuccess (js "Story updated successfully"))
                        (and_then handleCloseModal fetchStories)
             | Err error =>
                 Notify (ToastError
                           (message_or error (js "Failed to save story")))
                        Done
             end)
    | None =>
        Await (Insert Stories new_story_object) (λ res,
          match res with
          | Ok _ =>
              Notify (ToastSuccess (js "Story added successfully"))
                     (and_then handleCloseModal fetchStories)
          | Err error =>
              Notify (ToastError
                        (message_or error (js "Failed to save story")))
                     Done
          end)
    end.

Definition handleDelete (id : jsstring) : prog State :=
  Confirm (js "Are you sure you want to delete this story?") (λ yes,
    if negb yes then Done
    else
      Await (DeleteEq Stories "id" id) (λ res,
        match res with
        | Ok _ =>
            Notify (ToastSuccess (js "Story deleted successfully"))
                   fetchStories
        | Err _ => Notify (ToastError (js "Failed to delete story")) Done
        end)).
End handlers.
End StoriesPage.

(** ** The [Notes] page

    The page saves an edited note on a timer as well ([autoSave], one
    second after the last change); the timer is outside this model, the
    function it calls is [autoSave] below. *)

Module NotesPage.

(** [interface Note]; the fields carry the prefix [note_]. *)
Record Note := mkNote {
  note_id : jsstring;
  note_title : jsstring;
  note_content : jsstring;
  note_tags : list jsstring;
  note_updated_at : jsstring;
}.

Definition note_of_row (r : row) : Note :=
  {| note_id := text_of r "id"; note_title := text_of r "title";
     note_content := text_of r "content"; note_tags := array_of r "tags";
     note_updated_at := text_of r "updated_at" |}.

Record FormData := mkFormData {
  title : jsstring;
  content : jsstring;
  tags : list jsstring;
}.

Definition with_tags (fd : FormData) (l : list jsstring) : FormData :=
  {| title := title fd; content := content fd; tags := l |}.

Definition empty_form : FormData := mkFormData [] [] [].

Definition form_of_note (x : Note) : FormData :=
  {| title := note_title x; content := note_content x;
     tags := note_tags x |}.

Definition form_object (fd : FormData) : row :=
  {[ "title" := VText (title fd);
     "content" := VText (content fd);
     "tags" := VArray (tags fd) ]}.

Record State := mkState {
  notes : list Note;
  isLoading : bool;
  isModalOpen : bool;
  editingNote : option Note;
  searchQuery : jsstring;
  tagInput : jsstring;
  isSaving : bool;
  formData : FormData;
}.

Definition initial : State :=
  mkState [] true false None [] [] false empty_form.

Definition setNotes (v : list Note) (s : State) : State :=
  {| notes := v; isLoading := isLoading s; isModalOpen := isModalOpen s;
     editingNote := editingNote s; searchQuery := searchQuery s;
     tagInput := tagInput s; isSaving := isSaving s;
     formData := formData s |}.
Definition setIsLoading (v : bool) (s : State) : State :=
  {| notes := notes s; isLoading := v; isModalOpen := isModalOpen s;
     editingNote := editingNote s; searchQuery := searchQuery s;
     tagInput := tagInput s; isSaving := isSaving s;
     formData := formData s |}.
Definition setIsModalOpen (v : bool) (s : State) : State :=
  {| notes := notes s; isLoading := isLoading s; isModalOpen := v;
     editingNote := editingNote s; searchQuery := searchQuery s;
     tagInput := tagInput s; isSaving := isSaving s;
     formData := formData s |}.
Definition setEditingNote (v : option Note) (s : State) : State :=
  {| notes := notes s; isLoading := isLoading s;
     isModalOpen := isModalOpen s; editingNote := v;
     searchQuery := searchQuery s; tagInput := tagInput s;
     isSaving := isSaving s; formData := formData s |}.
Definition setSearchQuery (v : jsstring) (s : State) : State :=
  {| notes := notes s; isLoading := isLoading s;
     isModalOpen := isModalOpen s; editingNote := editingNote s;
     searchQuery := v; tagInput := tagInput s; isSaving := isSaving s;
     formData := formData s |}.
Definition setTagInput (v : jsstring) (s : State) : State :=
  {| notes := notes s; isLoading := isLoading s;
     isModalOpen := isModalOpen s; editingNote := editingNote s;
     searchQuery := searchQuery s; tagInput := v; isSaving := isSaving s;
     formData := formData s |}.
Definition setIsSaving (v : bool) (s : State) : State :=
  {| notes := notes s; isLoading := isLoading s;
     isModalOpen := isModalOpen s; editingNote := editingNote s;
     searchQuery := searchQuery s; tagInput := tagInput s; isSaving := v;
     formData := formData s |}.
Definition setFormData (v : FormData) (s : State) : State :=
  {| notes := notes s; isLoading := isLoading s;
     isModalOpen := isModalOpen s; editingNote := editingNote s;
     searchQuery := searchQuery s; tagInput := tagInput s;
     isSaving := isSaving s; formData := v |}.

Section handlers.
Variable user : option jsstring.
Variable now : jsstring.
Variable s : State.

Definition fetchNotes : prog State :=
  Await (SelectOrdered Notes "updated_at" false) (λ res,
    match res with
    | Ok data =>
        SetState (setNotes (note_of_row <$> data))
                 (SetState (setIsLoading false) Done)
    | Err _ =>
        Notify (ToastError (js "Failed to fetch notes"))
               (SetState (setIsLoading false) Done)
    end).

Definition autoSave (noteId : jsstring) (data : FormData) : prog State :=
  if negb (truthy (trim (title data))) then Done
  else
    SetState (setIsSaving true)
      (Await (UpdateEq Notes
                       (<["updated_at" := VText now]> (form_object data))
                       "id" noteId)
         (λ res,
            match res with
            | Ok _ => SetState (setIsSaving false) Done
            | Err _ =>
                Notify (ToastError (js "Failed to autosave"))
                       (SetState (setIsSaving false) Done)
            end)).

Definition handleOpenModal (x : option Note) : prog State :=
  (match x with
   | Some x => λ k, SetState (setEditingNote (Some x))
                      (SetState (setFormData (form_of_note x)) k)
   | None => λ k, SetState (setEditingNote None)
                    (SetState (setFormData empty_form) k)
   end)
    (SetState (setTagInput []) (SetState (setIsModalOpen true) Done)).

Definition handleCloseModal : prog State :=
  SetState (setIsModalOpen false)
    (SetState (setEditingNote None) fetchNotes).

Definition handleAddTag : prog State :=
  let tag := trim (tagInput s) in
  if truthy tag && negb (bool_decide (tag ∈ tags (formData s)))
  then SetState (setFormData (with_tags (formData s)
                                        (tags (formData s) ++ [tag])))
                (SetState (setTagInput []) Done)
  else Done.

Definition handleRemoveTag (tagToRemove : jsstring) : prog State :=
  SetState (setFormData
              (with_tags (formData s)
                         (filter (λ tag, tag ≠ tagToRemove)
                                 (tags (formData s)))))
           Done.

Definition new_note_object : row :=
  with_user_id user (form_object (formData s)).

Definition handleSubmit : prog State :=
  if negb (truthy (trim (title (formData s))))
  then Notify (ToastError (js "Title is required")) Done
  else
    match editingNote s with
    | Some editing =>
        and_then (autoSave (note_id editing) (formData s))
          (Notify (ToastSuccess (js "Note saved"))
             (and_then handleCloseModal fetchNotes))
    | None =>
        Await (Insert Notes new_note_object) (λ res,
          match res with
          | Ok _ =>
              Notify (ToastSuccess (js "Note created"))
                     (and_then handleCloseModal fetchNotes)
          | Err error =>
              Notify (ToastError
                        (message_or error (js "Failed to save note")))
                     Done
          end)
    end.

Definition handleDelete (id : jsstring) : prog State :=
  Confirm (js "Are you sure you want to delete this note?") (λ yes,
    if negb yes then Done
    else
      Await (DeleteEq Notes "id" id) (λ res,
        match res with
        | Ok _ => Notify (ToastSuccess (js "Note deleted")) fetchNotes
        | Err _ => Notify (ToastError (js "Failed to delete note")) Done
        end)).
End handlers.
End NotesPage.

(** ** The [Settings] page

    The theme switch belongs to the theme context and is not part of the
    page's own state. *)

Module SettingsPage.

(** The [profile] cell. *)
Record Profile := mkProfile {
  full_name : jsstring;
  email : jsstring;
}.

Record State := mkState {
  isLoading : bool;
  profile : Profile;
}.

Definition initial : State := mkState false (mkProfile [] []).

Definition setIsLoading (v : bool) (s : State) : State :=
  {| isLoading := v; profile := profile s |}.
Definition setProfile (v : Profile) (s : State) : State :=
  {| isLoading := isLoading s; profile := v |}.

Section handlers.
(** [user?.id] and [user.email] of the signed-in user. *)
Variable user : option jsstring.
Variable user_email : option jsstring.
Variable now : jsstring.
Variable s : State.

(** [a || b] on strings. *)
Definition or_else (a b : jsstring) : jsstring := if truthy a then a else b.

Definition fetchProfile : prog State :=
  match user with
  | None => Done
  | Some uid =>
      Await (SelectMaybeSingle Profiles "id" uid) (λ res,
        match res with
        | Ok (Some data) =>
            SetState
              (setProfile
                 {| full_name := text_of data "full_name";
                    email := or_else (text_of data "email")
                                     (default [] user_email) |})
              Done
        | Ok None => Done
        | Err _ => Notify (ToastError (js "Failed to load profile")) Done
        end)
  end.

Definition profile_update_object : row :=
  {[ "full_name" := VText (full_name (profile s));
     "updated_at" := VText now ]}.

Definition handleUpdateProfile : prog State :=
  match user with
  | None => Done
  | Some uid =>
      SetState (setIsLoading true)
        (Await (UpdateEq Profiles profile_update_object "id" uid) (λ res,
           match res with
           | Ok _ =>
               Notify (ToastSuccess (js "Profile updated successfully"))
                      (SetState (setIsLoading false) Done)
           | Err error =>
               Notify (ToastError
                         (message_or error (js "Failed to update profile")))
                      (SetState (setIsLoading false) Done)
           end))
  end.
End handlers.
End SettingsPage.

(** ** Example data *)

(** The item [x] of the spec's scenario, a note in folder [B]. *)
Definition item_x : PrepItem :=
  mkPrepItem (js "x") (js "B") note (js "Questions") [] [] [] []
             (js "Ask about the team") [] (js "2025-11-21T14:48:33Z").

Definition scenario_items := [item_x].

(** A form with the tag [rust], and the tag input [" rust "]. *)
Definition tagged_state : Preparation.State :=
  Preparation.setTagInput (js " rust ")
    (Preparation.setFormData
       (Preparation.mkFormData (js "Ownership") [] [] [] [] []
                               [js "rust"; js "go"])
       Preparation.initial).

Definition tagged_stories_state : StoriesPage.State :=
  StoriesPage.setTagInput (js " rust ")
    (StoriesPage.setFormData
       (StoriesPage.mkFormData (js "Ownership") [] [] [] []
                               [js "rust"; js "go"])
       StoriesPage.initial).

(** A job form whose company is blank. *)
Definition blank_company_state : Dashboard.State :=
  Dashboard.setFormData
    (Dashboard.mkFormData (js "Engineer") (js "  ") (js "Applied")
                          (js "2025-11-21") [] [])
    (Dashboard.initial (js "2025-11-21")).

(** A store with two users; the first owns the folders and the item of
    the scenario, the second a job. *)
Definition user1 : jsstring := js "u1".
Definition user2 : jsstring := js "u2".
Definition t0 : jsstring := js "2025-11-21T14:48:33Z".

Definition auth_row (id email : jsstring) : row :=
  {[ "id" := VText id; "email" := VText email ]}.

Definition profile_row (id email : jsstring) : row :=
  {[ "id" := VText id; "email" := VText email; "full_name" := VText [];
     "custom_columns" := VText (js "[]"); "theme" := VText (js "light");
     "created_at" := VText t0; "updated_at" := VText t0 ]}.

Definition folder_row (f : PrepFolder) (uid : jsstring) : row :=
  {[ "id" := VText (pf_id f); "user_id" := VText uid;
     "name" := VText (pf_name f); "parent_id" := nullable (pf_parent_id f);
     "created_at" := VText t0; "updated_at" := VText t0 ]}.

Definition type_text (t : item_type) : jsstring :=
  match t with story => js "story" | note => js "note" end.

Definition item_row (i : PrepItem) (uid : jsstring) : row :=
  {[ "id" := VText (pi_id i); "user_id" := VText uid;
     "folder_id" := VText (pi_folder_id i);
     "type" := VText (type_text (pi_type i));
     "title" := VText (pi_title i);
     "situation" := VText (pi_situation i); "task" := VText (pi_task i);
     "action" := VText (pi_action i); "result" := VText (pi_result i);
     "content" := VText (pi_content i); "tags" := VArray (pi_tags i);
     "created_at" := VText t0; "updated_at" := VText (pi_updated_at i) ]}.

Definition job_row (id uid role company : jsstring) : row :=
  {[ "id" := VText id; "user_id" := VText uid; "role" := VText role;
     "company" := VText company; "status" := VText (js "Applied");
     "applied_date" := VText (js "2025-11-20"); "job_link" := VText [];
     "notes" := VText []; "custom_data" := VText (js "{}");
     "created_at" := VText t0; "updated_at" := VText t0 ]}.

Definition scenario_db : DB :=
  λ t, match t with
       | Auth_users =>
           [auth_row user1 (js "a@x.io"); auth_row user2 (js "b@x.io")]
       | Profiles =>
           [profile_row user1 (js "a@x.io"); profile_row user2 (js "b@x.io")]
       | Jobs => [job_row (js "j1") user2 (js "Engineer") (js "Acme")]
       | Prep_folders => (λ f, folder_row f user1) <$> scenario_folders
       | Prep_items => (λ i, item_row i user1) <$> scenario_items
       | Stories | Notes => []
       end.

Definition env_of (uid : jsstring) : env :=
  mkEnv (Some uid) (js "fresh-uuid") (js "2025-11-22T09:00:00Z")
        (js "2025-11-22").

(** The page of the first user after loading, [A] selected, the folder
    modal open on a new name. *)
Definition loaded_state : Preparation.State :=
  Preparation.mkState scenario_folders scenario_items false (Some (js "A"))
    ∅ true Preparation.mode_folder None None (js "Algorithms") [] []
    Preparation.empty_form.

(** The row [r'] is the row [r] with its identifier and its type. *)
Definition keeps_type (r r' : row) : Prop :=
  row_id r' = row_id r ∧ cell r' "type" = cell r "type".

(** The page of the first user, folder [B] selected, the item [x] open in
    the note modal with a new title. *)
Definition editing_state : Preparation.State :=
  Preparation.mkState scenario_folders scenario_items false (Some (js "B"))
    ∅ true Preparation.mode_note None (Some item_x) [] [] []
    (Preparation.with_field (Preparation.form_of_item item_x)
                            Preparation.f_title (js "Questions to ask")).

(** The writes of the page: apart from reads, an event issues at most the
    one request listed here. *)
Definition write_of (user : option jsstring) (now : jsstring)
    (s : Preparation.State) (ev : Preparation.event) (q : request) : Prop :=
  match ev with
  | Preparation.ClickCreateRootFolder =>
      ∃ uid, user = Some uid ∧
             q = ReqInsert true Prep_folders (Preparation.root_folder_object uid)
  | Preparation.SubmitFolderForm =>
      match Preparation.editingFolder s with
      | Some editing =>
          q = ReqUpdateEq Prep_folders (Preparation.rename_object now s)
                          "id" (pf_id editing)
      | None =>
          q = ReqInsert true Prep_folders (Preparation.new_folder_object user s)
      end
  | Preparation.SubmitItemForm =>
      match Preparation.editingItem s, Preparation.selectedFolderId s with
      | Some editing, _ =>
          q = ReqUpdateEq Prep_items (Preparation.item_update_object now s)
                          "id" (pi_id editing)
      | None, Some folder =>
          q = ReqInsert false Prep_items
                        (Preparation.new_item_object user s folder)
      | None, None => False
      end
  | Preparation.ClickDeleteFolder id => q = ReqDeleteEq Prep_folders "id" id
  | Preparation.ClickDeleteItem id => q = ReqDeleteEq Prep_items "id" id
  | _ => False
  end.

(** ** Reading the cascade

    [b] is a row that points at the row [a] through a foreign key declared
    [ON DELETE CASCADE]. *)
Definition points_at (db : DB) (a b : ref) : Prop :=
  ∃ r fk, r ∈ db b.1 ∧ row_id r = Some b.2 ∧
          fk ∈ foreign_keys_of b.1 ∧ fk_on_delete_cascade fk = true ∧
          fk_target fk = a.1 ∧ cell r (fk_column fk) = VText a.2.

(** A set of references that the cascade cannot enlarge. *)
Definition cascade_closed (db : DB) (dead : list ref) : Prop :=
  ∀ b, b ∈ referencing db dead → b ∈ dead.

(** [p] is the parent reference of a stored folder whose key is [c]. *)
Definition row_parent (db : DB) (p c : jsstring) : Prop :=
  ∃ r, r ∈ db Prep_folders ∧ row_id r = Some c ∧
       cell r "parent_id" = VText p.

(** The caller may delete a folder whose key is [x]. *)
Definition deletable (e : env) (db : DB) (x : jsstring) : Prop :=
  ∃ r, r ∈ db Prep_folders ∧ matching "id" x r ∧
       rls_using e Prep_folders DELETE r = true.

(** The folder key [i] is [x] or lies below it. *)
Definition in_subtree (db : DB) (x i : jsstring) : Prop :=
  rtc (row_parent db) x i.

(** [id] is the primary key of every table. *)
Definition primary_keys (db : DB) : Prop :=
  ∀ t, NoDup (ids_of (db t)) ∧ ∀ r, r ∈ db t → is_Some (row_id r).

(** The stored item with key [i] lies in the folder with key [y]. *)
Definition item_in (db : DB) (y i : jsstring) : Prop :=
  ∃ r, r ∈ db Prep_items ∧ row_id r = Some i ∧
       cell r "folder_id" = VText y.

(** The rows of the first user's page that a delete of folder [x] takes. *)
Definition doomed_folder (e : env) (db : DB) (x : jsstring) (r : row)
    : Prop :=
  deletable e db x ∧ ∃ i, row_id r = Some i ∧ in_subtree db x i.

Definition doomed_item (e : env) (db : DB) (x : jsstring) (r : row) : Prop :=
  deletable e db x ∧
  ∃ y, cell r "folder_id" = VText y ∧ in_subtree db x y.

(** ** Consistency of the store

    What the constraints of the schema say about a store: [id] is a
    primary key, every row has the declared columns with their types,
    [NOT NULL]s and [CHECK]s, and every foreign key points at a row. *)
Definition rows_ok (db : DB) : Prop :=
  ∀ t r, r ∈ db t → columns_ok t r = true ∧ checks_ok t r = true.

Definition consistent (db : DB) : Prop :=
  (∀ t, NoDup (ids_of (db t))) ∧ rows_ok db ∧ db_foreign_keys_ok db = true.

(** ** Depth in the folder forest

    The folder with identifier [x] is [d] parent references away from a
    folder without parent. *)
Inductive depth_is (folders : list PrepFolder) : nat → jsstring → Prop :=
  | depth_root f :
      f ∈ folders → pf_parent_id f = None → depth_is folders 0 (pf_id f)
  | depth_child f q d :
      f ∈ folders → pf_parent_id f = Some q → depth_is folders d q →
      depth_is folders (S d) (pf_id f).

(** A root [A] beside two folders that name each other as parent. *)
Definition loopX := mkPrepFolder (js "X") (js "Drafts") (Some (js "Y")).
Definition loopY := mkPrepFolder (js "Y") (js "Ideas") (Some (js "X")).
Definition mixed_folders := [folderA; loopX; loopY].

(** ** Outcomes of a failed operation *)

(** The run left the page state [s] as it was, showed one error
    notification and issued one request. *)
Definition failed_cleanly {S B} (s : S) (o : outcome S B) : Prop :=
  o_state o = s ∧ (∃ msg, o_toasts o = [ToastError msg]) ∧
  length (o_requests o) = 1.

(** The run did nothing at all. *)
Definition nothing_happened {S B} (s : S) (b : B) (o : outcome S B) : Prop :=
  o = mkOutcome s [] [] b.

(** A new note being written, and the same form opened on a stored note. *)
Definition draft_note_state : NotesPage.State :=
  NotesPage.setFormData
    (NotesPage.mkFormData (js "Questions") (js "Ask about the team") [])
    NotesPage.initial.

Definition stored_note : NotesPage.Note :=
  NotesPage.mkNote (js "n1") (js "Questions") [] []
                   (js "2025-11-21T14:48:33Z").

Definition editing_note_state : NotesPage.State :=
  NotesPage.setIsModalOpen true
    (NotesPage.setEditingNote (Some stored_note) draft_note_state).

(** * Properties *)

(** ** Finite cycle-free relations *)

Section chains.
Context {A : Type} (R : A → A → Prop) (dom : list A).
Hypothesis R_dom : ∀ x y, R x y → y ∈ dom.
Hypothesis R_acyclic : ∀ x, ¬ tc R x x.

(** A path that ends in [x] and visits each member of [chain] stays
    duplicate-free when it is extended by one step. *)
Lemma chain_extend (chain : list A) (x y : A) :
  NoDup chain → (∀ z, z ∈ chain → rtc R z x) → R x y →
  NoDup (y :: chain) ∧ (∀ z, z ∈ y :: chain → rtc R z y).
Proof using R_acyclic.
  intros Hnd Hreach Hxy. split.
  - apply NoDup_cons. split; [|done].
    intros Hy. apply (R_acyclic y).
    eapply tc_rtc_l; [by apply Hreach|by apply tc_once].
  - intros z [->|Hz]%elem_of_cons; [done|].
    eapply rtc_r; [by apply Hreach|done].
Qed.

Lemma chain_bound (chain : list A) :
  NoDup chain → (∀ z, z ∈ chain → z ∈ dom) → length chain ≤ length dom.
Proof. intros ??. by apply submseteq_length, NoDup_submseteq. Qed.

(** Induction along [R], available because no path is longer than
    [dom]. *)
Lemma acyclic_ind (P : A → Prop) :
  (∀ x, (∀ y, R x y → P y) → P x) → ∀ x, P x.
Proof using R_dom R_acyclic.
  intros Hstep.
  assert (∀ k chain x,
    NoDup chain → (∀ z, z ∈ chain → z ∈ dom) →
    (∀ z, z ∈ chain → rtc R z x) →
    length dom < length chain + k → P x) as Hgen.
  { induction k as [|k IH]; intros chain x Hnd Hin Hreach Hlen.
    - pose proof (chain_bound chain Hnd Hin). lia.
    - apply Hstep. intros y Hxy.
      destruct (chain_extend chain x y Hnd Hreach Hxy) as [Hnd' Hreach'].
      apply (IH (y :: chain)); [done| |done|simpl; lia].
      intros z [->|Hz]%elem_of_cons; [by eapply R_dom|by apply Hin]. }
  intros x. apply (Hgen (S (length dom)) [] x).
  - constructor.
  - intros z Hz. by apply elem_of_nil in Hz.
  - intros z Hz. by apply elem_of_nil in Hz.
  - simpl. lia.
Qed.
End chains.

Lemma tc_flip {A} (R : A → A → Prop) x y : tc (flip R) x y → tc R y x.
Proof.
  induction 1 as [x y H|x y z H _ IH]; [by apply tc_once|].
  eapply tc_r; [exact IH|exact H].
Qed.

(** Two paths into the same point, along a relation in which every point
    has at most one predecessor, lie on one line. *)
Lemma tc_linear {A} (R : A → A → Prop) :
  (∀ p p' c, R p c → R p' c → p = p') →
  ∀ a b c, tc R a c → tc R b c → a = b ∨ tc R a b ∨ tc R b a.
Proof.
  intros Hfun.
  assert (∀ n a c, nsteps R n a c → ∀ m b, nsteps R m b c → n ≤ m →
          nsteps R (m - n) b a) as Hsuffix.
  { induction n as [|n IH]; intros a c Ha m b Hb Hle.
    - inversion Ha; subst. by rewrite Nat.sub_0_r.
    - destruct m as [|m]; [lia|].
      apply nsteps_inv_r in Ha as (y & Ha & Hy).
      apply nsteps_inv_r in Hb as (y' & Hb & Hy').
      assert (y = y') as <- by by eapply Hfun.
      apply (IH a y Ha m b Hb). lia. }
  intros a b c (n & Hn & Ha)%tc_nsteps (m & Hm & Hb)%tc_nsteps.
  destruct (decide (n = m)) as [->|Hne].
  - left. pose proof (Hsuffix m a c Ha m b Hb ltac:(lia)) as H.
    rewrite Nat.sub_diag in H. by inversion H.
  - destruct (decide (n < m)).
    + right; right. apply tc_nsteps. exists (m - n). split; [lia|].
      apply (Hsuffix n a c Ha m b Hb). lia.
    + right; left. apply tc_nsteps. exists (n - m). split; [lia|].
      apply (Hsuffix m b c Hb n a Ha). lia.
Qed.

(** ** List helpers *)

Lemma NoDup_fmap_inj_on {A B} (f : A → B) (l : list A) x y :
  NoDup (f <$> l) → x ∈ l → y ∈ l → f x = f y → x = y.
Proof.
  induction l as [|a l IH]; intros Hnd Hx Hy Hf.
  - by apply elem_of_nil in Hx.
  - rewrite fmap_cons in Hnd. apply NoDup_cons in Hnd as [Ha Hnd].
    apply elem_of_cons in Hx as [->|Hx];
      apply elem_of_cons in Hy as [->|Hy]; [done| | |by apply IH].
    + exfalso. apply Ha. rewrite Hf. by apply list_elem_of_fmap_2.
    + exfalso. apply Ha. rewrite <- Hf. by apply list_elem_of_fmap_2.
Qed.

Lemma fmap_bind_list {A B C} (f : B → C) (g : A → list B) (l : list A) :
  f <$> (l ≫= g) = l ≫= (λ x, f <$> g x).
Proof.
  induction l as [|a l IH]; [done|].
  by rewrite !bind_cons, fmap_app, IH.
Qed.

Lemma Forall2_elem_of_r {A B} (P : A → B → Prop) l k y :
  Forall2 P l k → y ∈ k → ∃ x, x ∈ l ∧ P x y.
Proof.
  induction 1 as [|a b l k Hab _ IH]; intros Hy.
  - by apply elem_of_nil in Hy.
  - apply elem_of_cons in Hy as [->|Hy].
    + exists a. split; [by left|done].
    + destruct (IH Hy) as (x & Hx & HP). exists x. split; [by right|done].
Qed.

Lemma Forall2_elem_of_l {A B} (P : A → B → Prop) l k x :
  Forall2 P l k → x ∈ l → ∃ y, y ∈ k ∧ P x y.
Proof.
  induction 1 as [|a b l k Hab _ IH]; intros Hx.
  - by apply elem_of_nil in Hx.
  - apply elem_of_cons in Hx as [->|Hx].
    + exists b. split; [by left|done].
    + destruct (IH Hx) as (y & Hy & HP). exists y. split; [by right|done].
Qed.

(** ** The folder tree builder *)

Lemma children_in_tree_nodes (t n m : FolderTreeNode) :
  n ∈ tree_nodes t → m ∈ children n → m ∈ tree_nodes t.
Proof.
  revert n m. induction t as [f kids e IH] using FolderTreeNode_forall_ind.
  intros n m Hn Hm. simpl in *.
  apply elem_of_cons in Hn as [->|Hn].
  - simpl in Hm. apply elem_of_cons. right.
    apply list_elem_of_bind. exists m. split; [|done].
    destruct m; simpl. by left.
  - apply elem_of_cons. right.
    apply list_elem_of_bind in Hn as (k & Hn & Hk).
    apply list_elem_of_bind. exists k. split; [|done].
    rewrite Forall_forall in IH. by eapply IH.
Qed.

Lemma children_in_forest_nodes (forest : list FolderTreeNode) n m :
  n ∈ forest_nodes forest → m ∈ children n → m ∈ forest_nodes forest.
Proof.
  unfold forest_nodes. intros (t & Hn & Ht)%list_elem_of_bind Hm.
  apply list_elem_of_bind. exists t. split; [|done].
  by eapply children_in_tree_nodes.
Qed.

Lemma roots_in_forest_nodes (forest : list FolderTreeNode) n :
  n ∈ forest → n ∈ forest_nodes forest.
Proof.
  intros Hn. apply list_elem_of_bind. exists n. split; [|done].
  destruct n; simpl. by left.
Qed.

Section tree_props.
Variable folders : list PrepFolder.
Variable expandedFolders : gset jsstring.

Local Abbreviation build := (buildFolderTree_fuel folders expandedFolders).
Local Abbreviation kids_of p := (filter (λ f, pf_parent_id f = p) folders).
Local Abbreviation built_for := (built_for folders expandedFolders).
Local Abbreviation below := (below folders).

Lemma build_S k p forest :
  build (S k) p = Some forest ↔ Forall2 (built_for k) (kids_of p) forest.
Proof.
  simpl. rewrite mapM_Some.
  split; intros HF; (eapply Forall2_impl; [exact HF|]);
    intros c n; unfold built_for.
  - intros H. destruct (build k (Some (pf_id c))) as [kids|]; [|done].
    simpl in H. by simplify_eq.
  - intros (<- & He & ->). simpl. destruct n as [f kids e].
    simpl in *. by rewrite He.
Qed.

Lemma built_for_folders k (l : list PrepFolder) forest :
  Forall2 (built_for k) l forest → node_folder <$> forest = l.
Proof.
  induction 1 as [|c n l l' (Hc & _) _ IH]; [done|].
  rewrite fmap_cons. by rewrite Hc, IH.
Qed.

Lemma build_roots k p forest :
  build k p = Some forest → node_folder <$> forest = kids_of p.
Proof.
  destruct k as [|k]; [done|]. rewrite build_S.
  apply built_for_folders.
Qed.

(** More depth never changes a result. *)
Lemma build_fuel_mono k k' p forest :
  build k p = Some forest → k ≤ k' → build k' p = Some forest.
Proof.
  revert k' p forest. induction k as [|k IH]; [done|].
  intros [|k'] p forest Hb Hle; [lia|].
  apply build_S. apply build_S in Hb.
  eapply Forall2_impl; [exact Hb|].
  intros c n (Hc & He & Hk). repeat split; [done..|].
  apply (IH k'); [done|lia].
Qed.

(** Depth [length folders + 1] is enough for a cycle-free collection:
    the identifiers on one branch are pairwise distinct. *)
Lemma buildFolderTree_fuel_enough p :
  acyclic folders → is_Some (build (S (length folders)) p).
Proof.
  intros Hacyc.
  assert (∀ k chain p,
    NoDup chain → (∀ z, z ∈ chain → z ∈ pf_id <$> folders) →
    (∀ z, z ∈ chain → ∃ y, p = Some y ∧ rtc (is_parent folders) z y) →
    length folders < length chain + k → is_Some (build k p)) as Hgen.
  { clear p. induction k as [|k IH]; intros chain p Hnd Hin Hreach Hlen.
    - pose proof (chain_bound _ chain Hnd Hin) as Hb.
      rewrite length_fmap in Hb. lia.
    - simpl. apply mapM_is_Some, Forall_forall. intros c Hc.
      apply list_elem_of_filter in Hc as [Hp Hc]. simpl.
      assert (is_parent_c : ∀ y, p = Some y → is_parent folders y (pf_id c)).
      { intros y ->. by exists c. }
      destruct (IH (pf_id c :: chain) (Some (pf_id c))) as [kids ->];
        [| | |simpl; lia|by eexists].
      + apply NoDup_cons. split; [|done]. intros Hcin.
        destruct (Hreach _ Hcin) as (y & Hy & Hrtc).
        apply (Hacyc (pf_id c)). eapply tc_rtc_l; [exact Hrtc|].
        by apply tc_once, is_parent_c.
      + intros z [->|Hz]%elem_of_cons; [|by apply Hin].
        by apply list_elem_of_fmap_2.
      + intros z [->|Hz]%elem_of_cons; [by eexists|].
        destruct (Hreach _ Hz) as (y & Hy & Hrtc).
        eexists. split; [done|]. eapply rtc_r; [exact Hrtc|].
        by apply is_parent_c. }
  apply (Hgen _ []); [constructor| | |simpl; lia];
    intros z Hz; by apply elem_of_nil in Hz.
Qed.

(** Every node of a built forest carries a folder of the collection, the
    expansion flag of that folder, and as children exactly the folders
    whose parent reference is the node's identifier. *)
Lemma build_nodes k p forest n :
  build k p = Some forest → n ∈ forest_nodes forest →
  node_folder n ∈ folders ∧
  isExpanded n = bool_decide (pf_id (node_folder n) ∈ expandedFolders) ∧
  node_folder <$> children n = kids_of (Some (pf_id (node_folder n))).
Proof.
  revert p forest n. induction k as [|k IH]; [done|].
  intros p forest n HF%build_S (t & Hn & Ht)%list_elem_of_bind.
  destruct (Forall2_elem_of_r _ _ _ _ HF Ht) as (c & Hc & <- & He & Hk).
  apply list_elem_of_filter in Hc as [_ Hc].
  destruct t as [f kids e]. simpl in *.
  apply elem_of_cons in Hn as [->|Hn].
  - simpl. split; [done|]. split; [done|]. by eapply build_roots.
  - by eapply IH.
Qed.

Lemma build_below k p forest f :
  build k p = Some forest → f ∈ forest_folders forest → below p f.
Proof.
  revert p forest f. induction k as [|k IH]; [done|].
  intros p forest f HF%build_S (n & -> & Hn)%list_elem_of_fmap.
  apply list_elem_of_bind in Hn as (t & Hn & Ht).
  destruct (Forall2_elem_of_r _ _ _ _ HF Ht) as (c & Hc & <- & _ & Hk).
  apply list_elem_of_filter in Hc as [Hp Hc].
  destruct t as [g kids e]. simpl in *.
  apply elem_of_cons in Hn as [->|Hn].
  - split; [done|]. by left.
  - destruct (IH _ _ (node_folder n) Hk) as [Hin Hbelow].
    { by apply list_elem_of_fmap_2. }
    split; [done|]. right. exists g. repeat split; [done..|].
    destruct Hbelow as [Hpar|(c & Hc' & Hcp & Hdesc)].
    + apply tc_once. by exists (node_folder n).
    + eapply tc_l; [|exact Hdesc]. by exists c.
Qed.

Hypothesis Hacyclic : acyclic folders.

(** With resolving parent references, every folder is reached from the
    roots. *)
Lemma build_covers k forest f :
  resolves folders → build k None = Some forest →
  f ∈ folders → f ∈ forest_folders forest.
Proof using Hacyclic.
  intros Hres Hb.
  pose (R := λ c q : jsstring, is_parent folders q c).
  assert (∀ x, ∀ g, g ∈ folders → pf_id g = x →
          g ∈ forest_folders forest) as Hall; [|by eauto].
  refine (acyclic_ind R (pf_id <$> folders) _ _
            (λ x, ∀ g, g ∈ folders → pf_id g = x →
                       g ∈ forest_folders forest) _).
  - intros x y (g & Hg & _ & Hpar). by eapply Hres.
  - intros x Hx. by apply (Hacyclic x), tc_flip.
  - intros x IHx g Hg <-.
    destruct (pf_parent_id g) as [q|] eqn:Hpar.
    + assert (R (pf_id g) q) as Hq by by exists g.
      pose proof (Hres g q Hg Hpar) as (h & -> & Hh)%list_elem_of_fmap.
      pose proof (IHx _ Hq h Hh eq_refl) as (n & -> & Hn)%list_elem_of_fmap.
      destruct (build_nodes _ _ _ _ Hb Hn) as (_ & _ & Hkids).
      assert (g ∈ node_folder <$> children n) as (m & -> & Hm)%list_elem_of_fmap.
      { rewrite Hkids. by apply list_elem_of_filter. }
      apply list_elem_of_fmap_2. by eapply children_in_forest_nodes.
    + apply build_roots in Hb as Hroots.
      assert (g ∈ node_folder <$> forest) as (m & -> & Hm)%list_elem_of_fmap.
      { rewrite Hroots. by apply list_elem_of_filter. }
      by apply list_elem_of_fmap_2, roots_in_forest_nodes.
Qed.

Hypothesis Hunique : unique_ids folders.

Lemma is_parent_functional p p' c :
  is_parent folders p c → is_parent folders p' c → p = p'.
Proof using Hunique.
  intros (f & Hf & Hid & Hp) (f' & Hf' & Hid' & Hp').
  assert (f = f') as <-; [|congruence].
  eapply (NoDup_fmap_inj_on pf_id); [exact Hunique|done..|congruence].
Qed.

(** Two folders with one parent value are not below one another. *)
Lemma siblings_unrelated p c c' :
  c ∈ folders → c' ∈ folders →
  pf_parent_id c = p → pf_parent_id c' = p →
  ¬ descendant folders (pf_id c) (pf_id c').
Proof using Hacyclic Hunique.
  intros Hc Hc' Hp Hp' Hdesc.
  assert (∃ q, is_parent folders q (pf_id c') ∧
               rtc (is_parent folders) (pf_id c) q) as (q & Hq & Hrtc).
  { apply tc_nsteps in Hdesc as (n & Hn & Hsteps).
    destruct n as [|n]; [lia|].
    apply nsteps_inv_r in Hsteps as (q & Hsteps & Hq).
    exists q. split; [done|]. by eapply rtc_nsteps_2. }
  assert (pf_parent_id c' = Some q) as Hpq.
  { destruct Hq as (h & Hh & Hid & Hpar).
    assert (h = c') as <-; [|done].
    by eapply (NoDup_fmap_inj_on pf_id); [exact Hunique|..]. }
  apply (Hacyclic q). eapply tc_rtc_r; [|exact Hrtc].
  apply tc_once. exists c. repeat split; [done|]. congruence.
Qed.

Lemma below_descendant x f :
  below (Some x) f → descendant folders x (pf_id f).
Proof.
  intros [Hf [Hp|(c & Hc & Hp & Hdesc)]].
  - apply tc_once. by exists f.
  - eapply tc_l; [|exact Hdesc]. by exists c.
Qed.

(** No folder occurs twice in a built forest. *)
Lemma build_NoDup k p forest :
  build k p = Some forest → NoDup (forest_folders forest).
Proof using Hacyclic Hunique.
  revert p forest. induction k as [|k IH]; [done|].
  intros p forest HF%build_S.
  assert (NoDup (node_folder <$> forest)) as Hroots.
  { rewrite (built_for_folders _ _ _ HF).
    apply NoDup_filter. by eapply NoDup_fmap_1. }
  assert (∀ t y, t ∈ forest → y ∈ node_folder <$> tree_nodes t →
          node_folder t ∈ folders ∧ pf_parent_id (node_folder t) = p ∧
          (y = node_folder t ∨
           descendant folders (pf_id (node_folder t)) (pf_id y))) as Hsub.
  { intros t y Ht Hy.
    destruct (Forall2_elem_of_r _ _ _ _ HF Ht) as (c & Hc & <- & _ & Hk).
    apply list_elem_of_filter in Hc as [Hp Hc].
    repeat split; [done..|].
    destruct t as [g kids e]. simpl in *.
    apply elem_of_cons in Hy as [->|Hy]; [by left|right].
    apply below_descendant. by eapply build_below. }
  unfold forest_folders, forest_nodes. rewrite fmap_bind_list.
  apply NoDup_bind; [| |by eapply NoDup_fmap_1].
  - intros t1 t2 y Ht1 Ht2 Hy1 Hy2.
    destruct (Hsub _ _ Ht1 Hy1) as (Hc1 & Hp1 & Hy1').
    destruct (Hsub _ _ Ht2 Hy2) as (Hc2 & Hp2 & Hy2').
    eapply (NoDup_fmap_inj_on node_folder); [exact Hroots|done..|].
    destruct Hy1' as [->|Hd1], Hy2' as [Heq|Hd2].
    + done.
    + exfalso.
      by apply (siblings_unrelated p (node_folder t2) (node_folder t1)).
    + subst y. exfalso.
      by apply (siblings_unrelated p (node_folder t1) (node_folder t2)).
    + destruct (tc_linear _ is_parent_functional _ _ _ Hd1 Hd2)
        as [Heq|[Hd|Hd]].
      * by eapply (NoDup_fmap_inj_on pf_id); [exact Hunique|..].
      * exfalso.
        by apply (siblings_unrelated p (node_folder t1) (node_folder t2)).
      * exfalso.
        by apply (siblings_unrelated p (node_folder t2) (node_folder t1)).
  - intros t Ht.
    destruct (Forall2_elem_of_r _ _ _ _ HF Ht) as (c & Hc & <- & _ & Hk).
    destruct t as [g kids e]. simpl in *.
    apply NoDup_cons. split; [|by eapply IH].
    intros Hin. apply (Hacyclic (pf_id g)).
    apply below_descendant with (f := g). by eapply build_below.
Qed.

(** The folders of the forest built from the null parent are the
    folders of the collection, each once. *)
Lemma build_Permutation k forest :
  resolves folders → build k None = Some forest →
  forest_folders forest ≡ₚ folders.
Proof using Hacyclic Hunique.
  intros Hres Hb. apply NoDup_Permutation.
  - by eapply build_NoDup.
  - by eapply NoDup_fmap_1.
  - intros f. split.
    + intros Hf. by eapply build_below.
    + by eapply build_covers.
Qed.
End tree_props.

Example scenario_tree :
  buildFolderTree scenario_folders {[ js "A" ]} None =
  Some [mkNode folderA [mkNode folderB [mkNode folderC [] false] false] true].
Proof. vm_compute. reflexivity. Qed.

(** A rank that strictly grows from every parent reference to the folder
    that carries it rules cycles out. *)
Lemma acyclic_by_rank (folders : list PrepFolder) (rank : jsstring → nat) :
  Forall (λ f, ∀ p, pf_parent_id f = Some p → rank p < rank (pf_id f))
         folders →
  acyclic folders.
Proof.
  intros Hrank.
  assert (∀ x y, descendant folders x y → rank x < rank y) as Hlt.
  { assert (∀ x y, is_parent folders x y → rank x < rank y) as Hstep.
    { intros x y (f & Hf & <- & Hp).
      rewrite Forall_forall in Hrank. by apply Hrank. }
    induction 1 as [x y H|x y z H _ IH]; [by apply Hstep|].
    apply Hstep in H. lia. }
  intros x Hx. apply Hlt in Hx. lia.
Qed.

Lemma scenario_acyclic : acyclic scenario_folders.
Proof.
  apply (acyclic_by_rank _ first_unit).
  unfold scenario_folders. rewrite !Forall_cons, Forall_nil.
  repeat split; intros p [= <-]; vm_compute; lia.
Qed.

Lemma scenario_resolves : resolves scenario_folders.
Proof.
  intros f p Hf Hp.
  repeat (apply elem_of_cons in Hf as [->|Hf]); [..|by apply elem_of_nil in Hf];
    simpl in Hp; simplify_eq; apply list_elem_of_fmap;
    [exists folderA|exists folderB]; (split; [done|]);
    unfold scenario_folders; set_solver.
Qed.

Lemma scenario_unique_ids : unique_ids scenario_folders.
Proof.
  unfold unique_ids. apply (bool_decide_unpack _). vm_compute. exact I.
Qed.

(** C1.  For a folder collection without parent-reference cycles, whose
    parent references resolve inside the collection (and whose identifiers
    are a primary key), [buildFolderTree(null)] returns a forest: its roots
    are the folders with a null parent, it has as many nodes as there are
    folders (its nodes carry the folders of the collection, each once), and
    the children of every node are exactly the folders whose parent
    reference is that node's identifier. *)
Theorem buildFolderTree_forest
    (folders : list PrepFolder) (expandedFolders : gset jsstring) :
  acyclic folders → resolves folders → unique_ids folders →
  ∃ forest,
    buildFolderTree folders expandedFolders None = Some forest ∧
    node_folder <$> forest = filter (λ f, pf_parent_id f = None) folders ∧
    forest_size forest = length folders ∧
    forest_folders forest ≡ₚ folders ∧
    ∀ n, n ∈ forest_nodes forest →
         node_folder <$> children n =
         filter (λ f, pf_parent_id f = Some (pf_id (node_folder n))) folders.
Proof.
  intros Hacyc Hres Huniq.
  destruct (buildFolderTree_fuel_enough folders expandedFolders None Hacyc)
    as [forest Hb].
  exists forest. split; [exact Hb|].
  pose proof (build_Permutation _ _ Hacyc Huniq _ _ Hres Hb) as Hperm.
  split.
  { rewrite (build_roots _ _ _ _ _ Hb). by apply list_filter_iff. }
  split; [|split; [done|]].
  - unfold forest_size. rewrite <- (length_fmap node_folder).
    by apply Permutation_length.
  - intros n Hn. by eapply build_nodes.
Qed.

Lemma buildFolderTree_forest_witness :
  ∃ forest,
    buildFolderTree scenario_folders ∅ None = Some forest ∧
    node_folder <$> forest =
      filter (λ f, pf_parent_id f = None) scenario_folders ∧
    forest_size forest = length scenario_folders ∧
    forest_folders forest ≡ₚ scenario_folders ∧
    ∀ n, n ∈ forest_nodes forest →
         node_folder <$> children n =
         filter (λ f, pf_parent_id f = Some (pf_id (node_folder n)))
                scenario_folders.
Proof.
  apply (buildFolderTree_forest scenario_folders ∅).
  - exact scenario_acyclic.
  - exact scenario_resolves.
  - exact scenario_unique_ids.
Defined.

(** A child whose subtree needs more depth starves its parent too. *)
Lemma build_None_child folders expandedFolders k p (c : PrepFolder) :
  c ∈ folders → pf_parent_id c = p →
  buildFolderTree_fuel folders expandedFolders k (Some (pf_id c)) = None →
  buildFolderTree_fuel folders expandedFolders (S k) p = None.
Proof.
  intros Hc Hp Hk. simpl. apply mapM_None, Exists_exists.
  exists c. split; [by apply list_elem_of_filter|].
  by rewrite Hk.
Qed.

Lemma loop_diverges expandedFolders fuel :
  buildFolderTree_fuel loop_folders expandedFolders fuel (Some (js "A")) = None
  ∧
  buildFolderTree_fuel loop_folders expandedFolders fuel (Some (js "B")) = None.
Proof.
  induction fuel as [|fuel [IHA IHB]]; [done|]. split.
  - apply (build_None_child _ _ _ _ loopB); [|done|exact IHB].
    unfold loop_folders. set_solver.
  - apply (build_None_child _ _ _ _ loopA); [|done|exact IHA].
    unfold loop_folders. set_solver.
Qed.

(** C2.  The builder has no cycle detection.  On a cycle-free collection
    the recursion returns, for every parent value, with the same forest at
    every depth above the number of folders.  On a collection in which a
    folder's parent reference is one of its own descendants there is a
    parent value at which no depth is enough: the recursion diverges. *)
Theorem buildFolderTree_no_cycle_detection :
  (∀ folders expandedFolders p,
     acyclic folders →
     ∃ forest, ∀ fuel, length folders < fuel →
       buildFolderTree_fuel folders expandedFolders fuel p = Some forest)
  ∧
  (∃ folders expandedFolders p,
     (∃ f q, f ∈ folders ∧ pf_parent_id f = Some q ∧
             descendant folders (pf_id f) q) ∧
     ∀ fuel, buildFolderTree_fuel folders expandedFolders fuel p = None).
Proof.
  split.
  - intros folders expandedFolders p Hacyc.
    destruct (buildFolderTree_fuel_enough folders expandedFolders p Hacyc)
      as [forest Hb].
    exists forest. intros fuel Hfuel.
    eapply build_fuel_mono; [exact Hb|lia].
  - exists loop_folders, ∅, (Some (js "A")). split.
    + exists loopA, (js "B"). split; [unfold loop_folders; set_solver|].
      split; [done|]. apply tc_once. exists loopB.
      split; [unfold loop_folders; set_solver|done].
    + intros fuel. apply loop_diverges.
Qed.

Lemma buildFolderTree_no_cycle_detection_witness :
  ∃ forest, ∀ fuel, length scenario_folders < fuel →
    buildFolderTree_fuel scenario_folders ∅ fuel (Some (js "A")) = Some forest.
Proof.
  destruct buildFolderTree_no_cycle_detection as [Hterm _].
  apply (Hterm scenario_folders ∅ (Some (js "A"))).
  exact scenario_acyclic.
Defined.

(** ** The content pane *)

(** C3.  The items shown for the selected folder are exactly the items
    whose folder reference is the selection, in their order; an item whose
    folder is a proper descendant of the selection in a cycle-free folder
    collection is not shown. *)
Theorem selectedFolderItems_exact (items : list PrepItem) (sel : jsstring) :
  (∀ item, item ∈ selectedFolderItems items (Some sel) ↔
           item ∈ items ∧ pi_folder_id item = sel) ∧
  sublist (selectedFolderItems items (Some sel)) items ∧
  (∀ folders item,
     acyclic folders → descendant folders sel (pi_folder_id item) →
     item ∉ selectedFolderItems items (Some sel)).
Proof.
  unfold selectedFolderItems. split; [|split].
  - intros item. rewrite list_elem_of_filter. naive_solver.
  - apply sublist_filter.
  - intros folders item Hacyc Hdesc Hin.
    apply list_elem_of_filter in Hin as [Hsel _].
    simplify_eq. by apply (Hacyc (pi_folder_id item)).
Qed.

Lemma selectedFolderItems_exact_witness :
  item_x ∉ selectedFolderItems scenario_items (Some (js "A")).
Proof.
  destruct (selectedFolderItems_exact scenario_items (js "A")) as (_ & _ & H).
  apply (H scenario_folders item_x).
  - exact scenario_acyclic.
  - apply tc_once. exists folderB.
    split; [unfold scenario_folders; set_solver|done].
Defined.

(** The scenario of the spec: selecting [A] shows nothing, selecting [B]
    shows [x]. *)
Example scenario_selection :
  selectedFolderItems scenario_items (Some (js "A")) = [] ∧
  selectedFolderItems scenario_items (Some (js "B")) = [item_x].
Proof. split; vm_compute; reflexivity. Qed.

(** ** Trimming *)

Lemma trimStart_suffix s : trimStart s `suffix_of` s.
Proof.
  induction s as [|c s IH]; simpl; [done|].
  destruct (is_js_whitespace c); [by apply suffix_cons_r|done].
Qed.

Lemma trimStart_nil s : trimStart s = [] ↔ whitespace_only s.
Proof.
  unfold whitespace_only. induction s as [|c s IH]; simpl.
  - split; [constructor|done].
  - destruct (is_js_whitespace c) eqn:Hc.
    + rewrite IH. rewrite Forall_cons. naive_solver.
    + split; [done|]. intros [Hc' _]%Forall_cons. congruence.
Qed.

Lemma whitespace_only_trimStart s :
  whitespace_only (trimStart s) ↔ whitespace_only s.
Proof.
  unfold whitespace_only. induction s as [|c s IH]; simpl; [done|].
  destruct (is_js_whitespace c) eqn:Hc; [|done].
  rewrite IH, Forall_cons. naive_solver.
Qed.

(** [s.trim()] is the empty string exactly when [s] is white space. *)
Lemma trim_nil s : trim s = [] ↔ whitespace_only s.
Proof.
  unfold trim, trimEnd.
  rewrite <- (whitespace_only_trimStart s).
  rewrite <- (reverse_involutive []). rewrite (inj_iff reverse).
  rewrite reverse_nil, trimStart_nil. unfold whitespace_only.
  by rewrite Forall_reverse.
Qed.

Lemma truthy_false s : truthy s = false ↔ s = [].
Proof. by destruct s. Qed.

Lemma blank_iff s : truthy (trim s) = false ↔ whitespace_only s.
Proof. by rewrite truthy_false, trim_nil. Qed.

Example trim_sample : trim (js "  rust	 ") = js "rust".
Proof. vm_compute. reflexivity. Qed.

(** ** Tags of the draft *)

Lemma filter_absent (tag : jsstring) (l : list jsstring) :
  tag ∉ l → filter (λ t, t ≠ tag) l = l.
Proof.
  intros Hnot. induction l as [|t l IH]; [done|].
  apply not_elem_of_cons in Hnot as [Hne Hnot].
  rewrite filter_cons_True by done. by rewrite IH.
Qed.

Lemma NoDup_snoc (tag : jsstring) (l : list jsstring) :
  NoDup l → tag ∉ l → NoDup (l ++ [tag]).
Proof.
  intros Hnd Hnot. apply NoDup_app. split; [done|]. split.
  - intros x Hx ->%list_elem_of_singleton. done.
  - apply NoDup_singleton.
Qed.

(** C6.  On the draft of the [Preparation] page and of the [Stories]
    page: adding a tag that is already in the list changes nothing,
    removing a tag that is not in the list changes nothing, and an add
    keeps a duplicate-free list duplicate-free. *)
Theorem tag_edits_idempotent :
  (∀ (s : Preparation.State) B answer b,
     let o := run B answer (Preparation.handleAddTag s) s b in
     (trim (Preparation.tagInput s)
        ∈ Preparation.tags (Preparation.formData s) → o_state o = s) ∧
     (NoDup (Preparation.tags (Preparation.formData s)) →
      NoDup (Preparation.tags (Preparation.formData (o_state o))))) ∧
  (∀ (s : Preparation.State) tag B answer b,
     tag ∉ Preparation.tags (Preparation.formData s) →
     o_state (run B answer (Preparation.handleRemoveTag s tag) s b) = s) ∧
  (∀ (s : StoriesPage.State) B answer b,
     let o := run B answer (StoriesPage.handleAddTag s) s b in
     (trim (StoriesPage.tagInput s)
        ∈ StoriesPage.tags (StoriesPage.formData s) → o_state o = s) ∧
     (NoDup (StoriesPage.tags (StoriesPage.formData s)) →
      NoDup (StoriesPage.tags (StoriesPage.formData (o_state o))))) ∧
  (∀ (s : StoriesPage.State) tag B answer b,
     tag ∉ StoriesPage.tags (StoriesPage.formData s) →
     o_state (run B answer (StoriesPage.handleRemoveTag s tag) s b) = s).
Proof.
  split; [|split; [|split]].
  - intros s B answer b. split.
    + intros Hin. unfold Preparation.handleAddTag.
      rewrite (bool_decide_eq_true_2 _ Hin), andb_false_r. done.
    + intros Hnd. unfold Preparation.handleAddTag.
      destruct (truthy _); [|done]. case_bool_decide as Hin; [done|].
      simpl. by apply NoDup_snoc.
  - intros s tag B answer b Hnot. unfold Preparation.handleRemoveTag. simpl.
    rewrite (filter_absent _ _ Hnot).
    destruct s as [? ? ? ? ? ? ? ? ? ? ? ? []]. done.
  - intros s B answer b. split.
    + intros Hin. unfold StoriesPage.handleAddTag.
      rewrite (bool_decide_eq_true_2 _ Hin), andb_false_r. done.
    + intros Hnd. unfold StoriesPage.handleAddTag.
      destruct (truthy _); [|done]. case_bool_decide as Hin; [done|].
      simpl. by apply NoDup_snoc.
  - intros s tag B answer b Hnot. unfold StoriesPage.handleRemoveTag. simpl.
    rewrite (filter_absent _ _ Hnot).
    destruct s as [? ? ? ? ? ? []]. done.
Qed.

Lemma tag_edits_idempotent_witness :
  o_state (run offline (λ _, true) (Preparation.handleAddTag tagged_state)
               tagged_state ()) = tagged_state ∧
  o_state (run offline (λ _, true)
               (Preparation.handleRemoveTag tagged_state (js "java"))
               tagged_state ()) = tagged_state ∧
  NoDup (StoriesPage.tags (StoriesPage.formData
    (o_state (run offline (λ _, true)
                  (StoriesPage.handleAddTag tagged_stories_state)
                  tagged_stories_state ())))).
Proof.
  destruct tag_edits_idempotent as (Hadd & Hremove & Hadd' & _).
  split; [|split].
  - apply (Hadd tagged_state offline (λ _, true) ()).
    vm_compute. set_solver.
  - apply (Hremove tagged_state (js "java") offline (λ _, true) ()).
    vm_compute. set_solver.
  - apply (Hadd' tagged_stories_state offline (λ _, true) ()).
    apply (bool_decide_unpack _). vm_compute. exact I.
Defined.

(** ** Validation before a save *)

(** C7.  When the role or the company of the job form is empty or white
    space only, submitting it does one thing: it shows the validation
    message.  No request is issued, so the store and the page state are
    what they were, whatever the backend is. *)
Theorem job_requires_role_and_company
    (user : option jsstring) (now : jsstring) (s : Dashboard.State) :
  whitespace_only (Dashboard.role (Dashboard.formData s)) ∨
  whitespace_only (Dashboard.company (Dashboard.formData s)) →
  Dashboard.handleSubmit user now s =
    Notify (ToastError (js "Role and Company are required")) Done ∧
  ∀ B answer b,
    run B answer (Dashboard.handleSubmit user now s) s b =
    mkOutcome s [ToastError (js "Role and Company are required")] [] b.
Proof.
  intros Hblank.
  assert (Dashboard.handleSubmit user now s =
          Notify (ToastError (js "Role and Company are required")) Done)
    as ->; [|done].
  unfold Dashboard.handleSubmit.
  destruct Hblank as [H|H]; apply blank_iff in H; rewrite H; simpl;
    [done|by rewrite orb_true_r].
Qed.

Lemma job_requires_role_and_company_witness :
  run (supabase (env_of user2)) (λ _, true)
      (Dashboard.handleSubmit (Some user2) t0 blank_company_state)
      blank_company_state scenario_db =
  mkOutcome blank_company_state
            [ToastError (js "Role and Company are required")] [] scenario_db.
Proof.
  apply (job_requires_role_and_company (Some user2) t0 blank_company_state).
  right. vm_compute. repeat constructor.
Defined.

(** The same gate in front of the folder form. *)
Lemma folder_requires_name user now (s : Preparation.State) :
  whitespace_only (Preparation.folderName s) →
  Preparation.handleSaveFolder user now s =
    Notify (ToastError (js "Folder name is required")) Done.
Proof.
  intros H%blank_iff. unfold Preparation.handleSaveFolder. by rewrite H.
Qed.

(** ** The requests of the [Preparation] page *)

Lemma may_issue_and_then {S} (p p' : prog S) q :
  may_issue (and_then p p') q → may_issue p q ∨ may_issue p' q.
Proof.
  induction p as [|f k IH|t k IH|msg k IH|R c k IH]; simpl; [by right|done..| |].
  - intros [b Hb]. destruct (IH _ Hb); [left; by exists b|by right].
  - intros [->|[r Hr]]; [by left; left|].
    destruct (IH _ Hr); [left; right; by exists r|by right].
Qed.

Lemma fetchData_reads user s q :
  may_issue (Preparation.fetchData user s) q → is_read q = true.
Proof.
  unfold Preparation.fetchData. destruct user as [uid|]; [|done].
  simpl. intros [->|[r1 [->|[r2 H]]]]; [done..|].
  destruct r1, r2; simpl in H; try done.
  repeat (match type of H with
          | context [if ?c then _ else _] => destruct c
          | context [match ?c with Some _ => _ | None => _ end] => destruct c
          end; simpl in H); done.
Qed.

Lemma close_then_fetch_reads user s q :
  may_issue (and_then Preparation.handleCloseModal
                      (Preparation.fetchData user s)) q →
  is_read q = true.
Proof.
  intros [H|H]%may_issue_and_then; [done|by eapply fetchData_reads].
Qed.

Lemma handle_issues user now s ev q :
  may_issue (Preparation.handle user now s ev) q →
  is_read q = true ∨ write_of user now s ev q.
Proof.
  destruct ev; simpl; try done.
  - left. by eapply fetchData_reads.
  - unfold Preparation.createRootFolder. destruct user as [uid|]; [|done].
    simpl. intros [->|[[] H]]; [right; by exists uid|done..].
  - unfold Preparation.handleOpenFolderModal. by destruct folder.
  - unfold Preparation.handleDeleteFolder. simpl.
    intros [[] H]; simpl in H; [|done].
    destruct H as [->|[[] H]]; [by right| |done]. left. simpl in H.
    destruct (decide _); simpl in H; by eapply fetchData_reads.
  - unfold Preparation.handleOpenItemModal.
    destruct (negb _); [done|]. by destruct item.
  - unfold Preparation.handleDeleteItem. simpl.
    intros [[] H]; simpl in H; [|done].
    destruct H as [->|[[] H]]; [by right| |done]. left. simpl in H.
    by eapply fetchData_reads.
  - unfold Preparation.handleSaveFolder.
    destruct (negb _); [done|].
    destruct (Preparation.editingFolder s) as [editing|]; simpl.
    + intros [->|[[] H]]; [by right| |done]. left. simpl in H.
      by eapply fetchData_reads.
    + intros [->|[[] H]]; [by right| |done]. left. simpl in H.
      by eapply fetchData_reads.
  - unfold Preparation.handleSaveItem.
    destruct (negb _); [done|].
    destruct (Preparation.selectedFolderId s) as [folder|]; [|done].
    destruct (negb _); [done|].
    destruct (Preparation.editingItem s) as [editing|]; simpl.
    + intros [->|[[] H]]; [by right| |done]. left. simpl in H.
      by eapply fetchData_reads.
    + intros [->|[[] H]]; [by right| |done]. left. simpl in H.
      by eapply fetchData_reads.
  - unfold Preparation.handleAddTag. by destruct (_ && _).
Qed.

(** ** Inserting rows *)

Lemma with_defaults_lookup_Some e t (payload : row) c v :
  payload !! c = Some v → with_defaults e t payload !! c = Some v.
Proof.
  intros Hc. unfold with_defaults.
  induction (columns_of t) as [|cd l IH]; simpl; [done|].
  destruct (payload !! col_name cd) eqn:Hcd; [done|].
  rewrite lookup_insert_ne; [done|]. intros Heq. rewrite Heq in Hcd.
  congruence.
Qed.

Lemma db_set_eq db t rows : db_set db t rows t = rows.
Proof. unfold db_set. by rewrite decide_True. Qed.

Lemma db_set_ne db t rows t' : t' ≠ t → db_set db t rows t' = db t'.
Proof. intros. unfold db_set. by rewrite decide_False. Qed.

(** What an accepted [INSERT] has checked and stored. *)
Lemma exec_insert_Ok returning e db t payload r db' :
  exec_insert returning e db t payload = (Ok r, db') →
  r = with_defaults e t payload ∧
  db' = db_set db t (db t ++ [r]) ∧
  rls_with_check e t INSERT r = true ∧
  columns_ok t r = true ∧
  checks_ok t r = true ∧
  foreign_keys_ok db' t r = true.
Proof.
  unfold exec_insert.
  repeat (match goal with
          | |- context [if negb ?c then _ else _] =>
              destruct c eqn:?; simpl; [|by intros [=]]
          | |- context [if ?c then _ else _] =>
              destruct c eqn:?; simpl; [by intros [=]|]
          end).
  intros [= <- <-]. done.
Qed.

(** C10.  A folder created through the folder modal is inserted with the
    selected folder as its parent reference ([NULL], a root, when nothing
    is selected); the empty-state action inserts its folder with a [NULL]
    parent; no other event of the page inserts a folder; and the row-store
    stores the parent reference the request carries. *)
Theorem new_folder_parent
    (user : option jsstring) (now : jsstring) (s : Preparation.State) :
  (¬ whitespace_only (Preparation.folderName s) →
   Preparation.editingFolder s = None →
   ∃ k, Preparation.handleSaveFolder user now s =
        Await (InsertReturning Prep_folders
                 (Preparation.new_folder_object user s)) k) ∧
  Preparation.new_folder_object user s !! "parent_id" =
    Some (nullable (Preparation.selectedFolderId s)) ∧
  (∀ uid, ∃ k,
     Preparation.createRootFolder (Some uid) s =
     Await (InsertReturning Prep_folders
              (Preparation.root_folder_object uid)) k ∧
     Preparation.root_folder_object uid !! "parent_id" = Some VNull) ∧
  (∀ ev returning obj,
     may_issue (Preparation.handle user now s ev)
               (ReqInsert returning Prep_folders obj) →
     (ev = Preparation.SubmitFolderForm ∧
      obj !! "parent_id" =
        Some (nullable (Preparation.selectedFolderId s))) ∨
     (ev = Preparation.ClickCreateRootFolder ∧
      obj !! "parent_id" = Some VNull)) ∧
  (∀ returning e db obj parent r db',
     obj !! "parent_id" = Some parent →
     exec_insert returning e db Prep_folders obj = (Ok r, db') →
     r !! "parent_id" = Some parent ∧
     db' Prep_folders = db Prep_folders ++ [r]).
Proof.
  assert (Preparation.new_folder_object user s !! "parent_id" =
          Some (nullable (Preparation.selectedFolderId s))) as Hparent.
  { unfold Preparation.new_folder_object, with_user_id.
    destruct user; by simplify_map_eq. }
  split; [|split; [done|split; [|split]]].
  - intros Hname Hedit. unfold Preparation.handleSaveFolder.
    destruct (truthy (trim (Preparation.folderName s))) eqn:Ht.
    + simpl. rewrite Hedit. by eexists.
    + by apply blank_iff in Ht.
  - intros uid. eexists. split; [done|].
    unfold Preparation.root_folder_object. by simplify_map_eq.
  - intros ev returning obj [Hread|Hwrite]%handle_issues; [done|].
    destruct ev; simpl in Hwrite; try done.
    + destruct Hwrite as (uid & -> & [= -> ->]). right. split; [done|].
      unfold Preparation.root_folder_object. by simplify_map_eq.
    + destruct (Preparation.editingFolder s); [done|].
      injection Hwrite as -> ->. by left.
    + destruct (Preparation.editingItem s); [done|].
      by destruct (Preparation.selectedFolderId s).
  - intros returning e db obj parent r db' Hobj
      (-> & -> & _)%exec_insert_Ok.
    split; [by apply with_defaults_lookup_Some|by rewrite db_set_eq].
Qed.

Example scenario_loads :
  o_state (run (supabase (env_of user1)) (λ _, true)
               (Preparation.fetchData (Some user1) Preparation.initial)
               Preparation.initial scenario_db)
  = Preparation.setSelectedFolderId (Some (js "A"))
      (Preparation.setIsLoading false
         (Preparation.setItems scenario_items
            (Preparation.setFolders scenario_folders Preparation.initial))).
Proof. vm_compute. reflexivity. Qed.

Example scenario_new_folder :
  let o := run (supabase (env_of user1)) (λ _, true)
               (Preparation.handleSaveFolder (Some user1) t0 loaded_state)
               loaded_state scenario_db in
  folder_of_row <$> o_store o Prep_folders =
    scenario_folders ++
      [mkPrepFolder (js "fresh-uuid") (js "Algorithms") (Some (js "A"))] ∧
  o_toasts o = [ToastSuccess (js "Folder created")] ∧
  Preparation.folders (o_state o) = folder_of_row <$> o_store o Prep_folders.
Proof. vm_compute. done. Qed.

Lemma new_folder_parent_witness :
  (∃ k, Preparation.handleSaveFolder (Some user1) t0 loaded_state =
        Await (InsertReturning Prep_folders
                 (Preparation.new_folder_object (Some user1) loaded_state))
              k) ∧
  ∃ r db',
    exec_insert true (env_of user1) scenario_db Prep_folders
      (Preparation.new_folder_object (Some user1) loaded_state) = (Ok r, db') ∧
    r !! "parent_id" = Some (VText (js "A")) ∧
    db' Prep_folders = scenario_db Prep_folders ++ [r].
Proof.
  destruct (new_folder_parent (Some user1) t0 loaded_state)
    as (Hmodal & _ & _ & _ & Hstore).
  split.
  - apply Hmodal; [|reflexivity].
    unfold whitespace_only. apply (bool_decide_unpack _).
    vm_compute. exact I.
  - destruct (exec_insert true (env_of user1) scenario_db Prep_folders
                (Preparation.new_folder_object (Some user1) loaded_state))
      as [[r|err] db'] eqn:Hexec.
    + exists r, db'. split; [reflexivity|].
      apply (Hstore true (env_of user1) scenario_db
               (Preparation.new_folder_object (Some user1) loaded_state));
        [|exact Hexec].
      vm_compute. reflexivity.
    + exfalso.
      assert (is_err (exec_insert true (env_of user1) scenario_db Prep_folders
                        (Preparation.new_folder_object (Some user1)
                                                       loaded_state)).1
              = false) as Hok by (vm_compute; reflexivity).
      rewrite Hexec in Hok. discriminate Hok.
Defined.

(** ** Reads leave the store alone *)

Lemma supabase_read_store e {R} (call : storage_call R) db :
  is_read (request_of call) = true → (supabase_exec e call db).2 = db.
Proof. by destruct call. Qed.

Lemma run_reads_store {S} e answer (p : prog S) st db :
  (∀ q, may_issue p q → is_read q = true) →
  @o_store S DB (run (supabase e) answer p st db) = db.
Proof.
  revert st db.
  induction p as [|f k IH|t k IH|msg k IH|R c k IH]; intros st db Hreads;
    simpl; [done|by apply IH|by apply IH| |].
  - apply IH. intros q Hq. apply Hreads. by eexists.
  - pose proof (supabase_read_store e c db) as Hdb.
    destruct (supabase_exec e c db) as [r db'] eqn:Hexec. simpl in *.
    rewrite IH.
    + apply Hdb. apply Hreads. by left.
    + intros q Hq. apply Hreads. right. by eexists.
Qed.

(** ** Updating rows *)

(** An [UPDATE] touches one table, keeps its rows in place, and gives a
    row either nothing or the cells of the patch. *)
Lemma exec_update_rows e db t patch c v res db' :
  exec_update e db t patch c v = (res, db') →
  Forall2 (λ r r', r' = r ∨ r' = patch ∪ r) (db t) (db' t) ∧
  ∀ t', t' ≠ t → db' t' = db t'.
Proof.
  assert (Forall2 (λ r r' : row, r' = r ∨ r' = patch ∪ r) (db t) (db t))
    as Hrefl.
  { apply Forall_Forall2_diag, Forall_forall. by left. }
  unfold exec_update.
  repeat (match goal with
          | |- context [if negb ?c then _ else _] =>
              destruct c eqn:?; simpl; [|by intros [= <- <-]]
          | |- context [if ?c then _ else _] =>
              destruct c eqn:?; simpl; [by intros [= <- <-]|]
          end).
  intros [= <- <-]. split.
  - rewrite db_set_eq. apply Forall2_fmap_r, Forall_Forall2_diag, Forall_forall.
    intros r _. unfold compose. case_decide; [by right|by left].
  - intros t' Hne. by rewrite db_set_ne.
Qed.

Lemma cell_union_absent (patch r : row) c :
  patch !! c = None → cell (patch ∪ r) c = cell r c.
Proof. intros H. unfold cell. by rewrite lookup_union_r. Qed.

Lemma row_id_union_absent (patch r : row) :
  patch !! "id" = None → row_id (patch ∪ r) = row_id r.
Proof. intros H. unfold row_id. by rewrite lookup_union_r. Qed.

(** ** The kind of an item *)

Lemma inserted_item_type returning e db obj r db' :
  exec_insert returning e db Prep_items obj = (Ok r, db') →
  cell r "type" = VText (js "story") ∨ cell r "type" = VText (js "note").
Proof.
  intros (_ & _ & _ & Hcols & Hchecks & _)%exec_insert_Ok.
  unfold checks_ok in Hchecks. simpl in Hchecks.
  rewrite andb_true_r in Hchecks.
  assert (well_typed (mkColumn "type" TText true None) (cell r "type") = true)
    as Htyped.
  { unfold columns_ok in Hcols. rewrite forallb_forall in Hcols.
    apply (Hcols (mkColumn "type" TText true None)).
    simpl. tauto. }
  destruct (cell r "type") as [|s|l]; [done| |done].
  apply bool_decide_eq_true in Hchecks.
  apply elem_of_cons in Hchecks as [->|Hchecks]; [by left|].
  apply elem_of_cons in Hchecks as [->|Hchecks]; [by right|].
  by apply elem_of_nil in Hchecks.
Qed.

Lemma item_update_object_keys now (s : Preparation.State) :
  Preparation.item_update_object now s !! "type" = None ∧
  Preparation.item_update_object now s !! "id" = None.
Proof.
  unfold Preparation.item_update_object, Preparation.form_object.
  split; by simplify_map_eq.
Qed.

Lemma update_keeps_type e db patch c v res db' :
  patch !! "type" = None → patch !! "id" = None →
  exec_update e db Prep_items patch c v = (res, db') →
  Forall2 keeps_type (db Prep_items) (db' Prep_items).
Proof.
  intros Htype Hid [Hrows _]%exec_update_rows.
  eapply Forall2_impl; [exact Hrows|].
  intros r r' [->| ->]; [done|]. split.
  - by apply row_id_union_absent.
  - by apply cell_union_absent.
Qed.

(** C9.  The kind of an item is fixed when it is created.  An accepted
    insert into [prep_items] stores ['story'] or ['note'] (the [CHECK] and
    [NOT NULL] of the column), and the create path sends the modal's mode.
    Every update the page can issue on [prep_items] leaves the keys [type]
    and [id] out; such an update, accepted or not, keeps the identifier and
    the type of every row; so saving an edited item leaves every stored
    type as it was. *)
Theorem item_type_fixed :
  (∀ returning e db obj r db',
     exec_insert returning e db Prep_items obj = (Ok r, db') →
     cell r "type" = VText (js "story") ∨ cell r "type" = VText (js "note")) ∧
  (∀ user s folder,
     Preparation.new_item_object user s folder !! "type" =
     Some (VText (Preparation.mode_text (Preparation.modalMode s)))) ∧
  (∀ user now s ev patch c v,
     may_issue (Preparation.handle user now s ev)
               (ReqUpdateEq Prep_items patch c v) →
     patch !! "type" = None ∧ patch !! "id" = None) ∧
  (∀ e db patch c v res db',
     patch !! "type" = None → patch !! "id" = None →
     exec_update e db Prep_items patch c v = (res, db') →
     Forall2 keeps_type (db Prep_items) (db' Prep_items)) ∧
  (∀ user now s e answer db editing,
     Preparation.editingItem s = Some editing →
     Forall2 keeps_type (db Prep_items)
       (o_store (run (supabase e) answer
                     (Preparation.handleSaveItem user now s) s db)
                Prep_items)).
Proof.
  split; [exact inserted_item_type|]. split; [|split; [|split]].
  - intros user s folder.
    unfold Preparation.new_item_object, Preparation.form_object, with_user_id.
    destruct user; by simplify_map_eq.
  - intros user now s ev patch c v [Hread|Hwrite]%handle_issues; [done|].
    destruct ev; simpl in Hwrite; try done.
    + destruct Hwrite as (uid & _ & [=]).
    + by destruct (Preparation.editingFolder s).
    + destruct (Preparation.editingItem s).
      * injection Hwrite as -> _ _. apply item_update_object_keys.
      * by destruct (Preparation.selectedFolderId s).
  - exact update_keeps_type.
  - intros user now s e answer db editing Hedit.
    assert (Forall2 keeps_type (db Prep_items) (db Prep_items)) as Hrefl.
    { by apply Forall_Forall2_diag, Forall_forall. }
    unfold Preparation.handleSaveItem. rewrite Hedit.
    destruct (negb _); [done|].
    destruct (Preparation.selectedFolderId s) as [folder|]; [|done].
    destruct (negb _); [done|]. simpl.
    destruct (exec_update _ _ _ _ _ _) as [res db'] eqn:Hexec.
    destruct (item_update_object_keys now s) as [Htype Hid].
    pose proof (update_keeps_type _ _ _ _ _ _ _ Htype Hid Hexec) as Hkeep.
    destruct res as [[]|err]; simpl; [|done].
    rewrite run_reads_store; [done|]. apply fetchData_reads.
Qed.

Lemma item_type_fixed_witness :
  Forall2 keeps_type (scenario_db Prep_items)
    (o_store (run (supabase (env_of user1)) (λ _, true)
                  (Preparation.handleSaveItem (Some user1) t0 editing_state)
                  editing_state scenario_db)
             Prep_items).
Proof.
  destruct item_type_fixed as (_ & _ & _ & _ & Hsave).
  apply (Hsave (Some user1) t0 editing_state (env_of user1) (λ _, true)
               scenario_db item_x).
  reflexivity.
Defined.

(** The edit of the scenario goes through: the title changes, the type
    stays. *)
Example scenario_edit :
  let o := run (supabase (env_of user1)) (λ _, true)
               (Preparation.handleSaveItem (Some user1) t0 editing_state)
               editing_state scenario_db in
  (λ r, (text_of r "title", text_of r "type")) <$> o_store o Prep_items =
    [(js "Questions to ask", js "note")] ∧
  o_toasts o = [ToastSuccess (js "Item updated")].
Proof. vm_compute. done. Qed.

(** ** Row-level security of reads *)

Lemma select_policy t :
  rls_enabled t = true →
  ∃ name, policies_for t SELECT =
          [mkPolicy name t SELECT (Some (owns (owner_column t))) None].
Proof.
  destruct t; [done|..]; intros _; eexists; vm_compute; reflexivity.
Qed.

Lemma select_policies_using p :
  p ∈ policies → pol_command p = SELECT →
  pol_using p = Some (owns (owner_column (pol_table p))).
Proof.
  unfold policies, crud_policies. intros Hp Hc.
  repeat (apply elem_of_app in Hp as [Hp|Hp]);
    repeat (apply elem_of_cons in Hp as [->|Hp]);
    try done; by apply elem_of_nil in Hp.
Qed.

(** [auth.uid() = c] is true exactly on the rows whose cell [c] is the
    caller's identifier. *)
Lemma holds_owns e r c :
  holds e r (Some (owns c)) = true ↔
  ∃ u, env_uid e = Some u ∧ cell r c = VText u.
Proof.
  unfold holds, owns, eval_pred, eval_expr. rewrite bool_decide_eq_true.
  destruct (env_uid e) as [u|]; simpl; [|naive_solver].
  destruct (cell r c) as [|s|l]; simpl; [naive_solver| |].
  - split.
    + intros H. injection H as H. apply bool_decide_eq_true in H.
      exists u. by simplify_eq.
    + intros (? & [= <-] & [= <-]). by rewrite bool_decide_eq_true_2.
  - split.
    + by intros [= ?].
    + by intros (? & _ & ?).
Qed.

Lemma rls_select_owner e t r :
  rls_using e t SELECT r = true ↔
  rls_enabled t = true ∧
  ∃ u, env_uid e = Some u ∧ cell r (owner_column t) = VText u.
Proof.
  unfold rls_using. destruct (rls_enabled t) eqn:Hrls.
  - destruct (select_policy t Hrls) as [name ->]. cbn [existsb pol_using].
    rewrite orb_false_r, andb_true_iff, holds_owns, bool_decide_eq_true.
    split; [naive_solver|]. intros (_ & u & Hu & Hc).
    split; [by rewrite Hu|by exists u].
  - destruct t; try done. split; [|by intros [? _]].
    by rewrite andb_false_r.
Qed.

(** What a caller sees of a table: the rows it owns. *)
Lemma visible_own e db t u :
  rls_enabled t = true → env_uid e = Some u →
  visible e db t = filter (λ r, cell r (owner_column t) = VText u) (db t).
Proof.
  intros Hrls Hu. unfold visible. apply list_filter_iff. intros r.
  rewrite rls_select_owner. naive_solver.
Qed.

Lemma exec_select_eq_Ok e db t c x rows :
  exec_select_eq e db t c x = Ok rows →
  rls_enabled t = true ∧ rows = filter (matching c x) (visible e db t).
Proof.
  unfold exec_select_eq. destruct (rls_enabled t); [|done].
  destruct (has_column t c); [|done]. simpl. by intros [= <-].
Qed.

Lemma exec_select_ordered_Ok e db t c asc rows :
  exec_select_ordered e db t c asc = Ok rows →
  rls_enabled t = true ∧ rows = order_by c asc (visible e db t).
Proof.
  unfold exec_select_ordered. destruct (rls_enabled t); [|done].
  destruct (has_column t c); [|done]. simpl. by intros [= <-].
Qed.

Lemma elem_of_order_by c asc rows r : r ∈ order_by c asc rows ↔ r ∈ rows.
Proof. unfold order_by. by rewrite merge_sort_Permutation. Qed.

Lemma elem_of_visible e db t r :
  r ∈ visible e db t →
  r ∈ db t ∧ ∃ u, env_uid e = Some u ∧ cell r (owner_column t) = VText u.
Proof.
  unfold visible. rewrite list_elem_of_filter, rls_select_owner.
  naive_solver.
Qed.

(** C5.  Every [SELECT] policy compares [auth.uid()] with the owner
    column of its table, and that comparison is true exactly on the
    caller's own rows.  So a read returns rows of the caller only: for
    distinct users, no read of one returns a row of the other; a query by
    identifier for rows that belong to others returns zero rows (or an
    error); and what a user reads does not depend on the rows of others. *)
Theorem reads_are_owner_scoped :
  (∀ p, p ∈ policies → pol_command p = SELECT →
        pol_using p = Some (owns (owner_column (pol_table p)))) ∧
  (∀ e r c, holds e r (Some (owns c)) = true ↔
            ∃ u, env_uid e = Some u ∧ cell r c = VText u) ∧
  (∀ e db t r,
     (∀ c x rows, exec_select_eq e db t c x = Ok rows → r ∈ rows →
        r ∈ db t ∧ ∃ u, env_uid e = Some u ∧
                        cell r (owner_column t) = VText u) ∧
     (∀ c asc rows, exec_select_ordered e db t c asc = Ok rows → r ∈ rows →
        r ∈ db t ∧ ∃ u, env_uid e = Some u ∧
                        cell r (owner_column t) = VText u)) ∧
  (∀ u v e db t r,
     u ≠ v → env_uid e = Some u → cell r (owner_column t) = VText v →
     (∀ c x rows, exec_select_eq e db t c x = Ok rows → r ∉ rows) ∧
     (∀ c asc rows, exec_select_ordered e db t c asc = Ok rows → r ∉ rows)) ∧
  (∀ u e db t x,
     env_uid e = Some u →
     (∀ r, r ∈ db t → matching "id" x r →
           cell r (owner_column t) ≠ VText u) →
     exec_select_eq e db t "id" x = Ok [] ∨
     ∃ err, exec_select_eq e db t "id" x = Err err) ∧
  (∀ u e db1 db2 t,
     env_uid e = Some u →
     filter (λ r, cell r (owner_column t) = VText u) (db1 t) =
     filter (λ r, cell r (owner_column t) = VText u) (db2 t) →
     (∀ c x, exec_select_eq e db1 t c x = exec_select_eq e db2 t c x) ∧
     (∀ c asc, exec_select_ordered e db1 t c asc =
               exec_select_ordered e db2 t c asc)).
Proof.
  assert (∀ e db t r,
    (∀ c x rows, exec_select_eq e db t c x = Ok rows → r ∈ rows →
       r ∈ db t ∧ ∃ u, env_uid e = Some u ∧
                       cell r (owner_column t) = VText u) ∧
    (∀ c asc rows, exec_select_ordered e db t c asc = Ok rows → r ∈ rows →
       r ∈ db t ∧ ∃ u, env_uid e = Some u ∧
                       cell r (owner_column t) = VText u)) as Hown.
  { intros e db t r. split.
    - intros c x rows [_ ->]%exec_select_eq_Ok [_ Hr]%list_elem_of_filter.
      by apply elem_of_visible.
    - intros c asc rows [_ ->]%exec_select_ordered_Ok Hr%elem_of_order_by.
      by apply elem_of_visible. }
  split; [exact select_policies_using|]. split; [exact holds_owns|].
  split; [exact Hown|]. split; [|split].
  - intros u v e db t r Hne Hu Hv.
    destruct (Hown e db t r) as [Heq Hord]. split.
    + intros c x rows Hexec Hr.
      destruct (Heq _ _ _ Hexec Hr) as (_ & u' & Hu' & Hc). congruence.
    + intros c asc rows Hexec Hr.
      destruct (Hord _ _ _ Hexec Hr) as (_ & u' & Hu' & Hc). congruence.
  - intros u e db t x Hu Hothers.
    destruct (exec_select_eq e db t "id" x) as [rows|err] eqn:Hexec;
      [left|right; by eexists].
    f_equal. destruct rows as [|r rows]; [done|exfalso].
    destruct (Hown e db t r) as [Heq _].
    destruct (Heq _ _ _ Hexec) as (Hr & u' & Hu' & Hc); [by left|].
    apply exec_select_eq_Ok in Hexec as [_ Hrows].
    assert (r ∈ filter (matching "id" x) (visible e db t)) as Hin.
    { rewrite <- Hrows. by left. }
    apply list_elem_of_filter in Hin as [Hmatch _].
    apply (Hothers r Hr Hmatch). congruence.
  - intros u e db1 db2 t Hu Hsame.
    unfold exec_select_eq, exec_select_ordered.
    destruct (rls_enabled t) eqn:Hrls; [|done].
    rewrite !(visible_own _ _ _ u Hrls Hu), Hsame. done.
Qed.

Lemma reads_are_owner_scoped_witness :
  (folder_row folderA user1
     ∉ filter (matching "id" (js "A"))
              (visible (env_of user2) scenario_db Prep_folders)) ∧
  (exec_select_eq (env_of user2) scenario_db Prep_folders "id" (js "A")
     = Ok [] ∨
   ∃ err, exec_select_eq (env_of user2) scenario_db Prep_folders "id" (js "A")
          = Err err).
Proof.
  destruct reads_are_owner_scoped as (_ & _ & _ & Hother & Hid & _).
  split.
  - destruct (Hother user2 user1 (env_of user2) scenario_db Prep_folders
                (folder_row folderA user1)) as [Heq _].
    + vm_compute. intros [=].
    + reflexivity.
    + vm_compute. reflexivity.
    + apply (Heq "id" (js "A")). vm_compute. reflexivity.
  - apply (Hid user2 (env_of user2) scenario_db Prep_folders (js "A")).
    + reflexivity.
    + intros r Hr Hmatch Howner. simpl in Hr.
      repeat (apply elem_of_cons in Hr as [->|Hr]);
        [vm_compute in Howner; discriminate Howner..|].
      by apply elem_of_nil in Hr.
Defined.

(** The scenario of the spec: the second user asks for folder [A] of the
    first by identifier and gets no row; the owner gets the row. *)
Example scenario_foreign_read :
  exec_select_eq (env_of user2) scenario_db Prep_folders "id" (js "A")
    = Ok [] ∧
  exec_select_eq (env_of user1) scenario_db Prep_folders "id" (js "A")
    = Ok [folder_row folderA user1] ∧
  exec_select_eq (mkEnv None [] [] []) scenario_db Prep_folders "id" (js "A")
    = Ok [].
Proof. split; [|split]; vm_compute; reflexivity. Qed.

(** ** The cascade of a delete *)

Lemma elem_of_ids_of (rows : list row) i :
  i ∈ ids_of rows ↔ ∃ r, r ∈ rows ∧ row_id r = Some i.
Proof. unfold ids_of. apply list_elem_of_omap. Qed.

Lemma length_ids_of (rows : list row) : length (ids_of rows) ≤ length rows.
Proof.
  unfold ids_of. induction rows as [|r rows IH]; [done|].
  change (omap row_id (r :: rows))
    with (match row_id r with
          | Some i => i :: omap row_id rows
          | None => omap row_id rows
          end).
  destruct (row_id r); simpl; lia.
Qed.

Lemma elem_of_all_tables t : t ∈ all_tables.
Proof. unfold all_tables. destruct t; set_solver. Qed.

Lemma elem_of_all_refs db t i :
  (t, i) ∈ all_refs db ↔ ∃ r, r ∈ db t ∧ row_id r = Some i.
Proof.
  unfold all_refs, refs_of. rewrite list_elem_of_bind. split.
  - intros (t' & (i' & [= -> ->] & Hi)%list_elem_of_fmap & _).
    by apply elem_of_ids_of.
  - intros Hr. exists t. split; [|apply elem_of_all_tables].
    apply list_elem_of_fmap. exists i. split; [done|].
    by apply elem_of_ids_of.
Qed.

Lemma length_all_refs db : length (all_refs db) ≤ row_count db.
Proof.
  unfold all_refs, row_count.
  induction all_tables as [|t l IH]; [done|].
  rewrite bind_cons, fmap_cons, length_app. simpl.
  unfold refs_of at 1. rewrite length_fmap.
  pose proof (length_ids_of (db t)). lia.
Qed.

Lemma cascades_from_spec dead t r :
  cascades_from dead t r = true ↔
  ∃ fk v, fk ∈ foreign_keys_of t ∧ fk_on_delete_cascade fk = true ∧
          cell r (fk_column fk) = VText v ∧ (fk_target fk, v) ∈ dead.
Proof.
  unfold cascades_from. rewrite existsb_exists. split.
  - intros (fk & Hfk%list_elem_of_In & [Hc Hv]%andb_true_iff).
    destruct (cell r (fk_column fk)) as [|v|] eqn:Hcell; [done| |done].
    apply bool_decide_eq_true in Hv. by exists fk, v.
  - intros (fk & v & Hfk & Hc & Hcell & Hv). exists fk.
    split; [by apply list_elem_of_In|].
    rewrite Hc, Hcell. by apply bool_decide_eq_true_2.
Qed.

Lemma elem_of_referencing db dead b :
  b ∈ referencing db dead ↔ ∃ a, a ∈ dead ∧ points_at db a b.
Proof.
  unfold referencing, points_at. rewrite list_elem_of_bind. split.
  - intros (t & (i & -> & Hi)%list_elem_of_fmap & _).
    apply elem_of_ids_of in Hi as (r & Hr & Hid).
    apply list_elem_of_filter in Hr as [Hc Hr].
    apply Is_true_true, cascades_from_spec in Hc
      as (fk & v & Hfk & Hcasc & Hcell & Hv).
    exists (fk_target fk, v). split; [done|]. by exists r, fk.
  - intros ([t' v] & Ha & r & fk & Hr & Hid & Hfk & Hcasc & Ht & Hcell).
    destruct b as [t i]. simpl in *. subst t'.
    exists t. split; [|apply elem_of_all_tables].
    apply list_elem_of_fmap. exists i. split; [done|].
    apply elem_of_ids_of. exists r. split; [|done].
    apply list_elem_of_filter. split; [|done].
    apply Is_true_true, cascades_from_spec. by exists fk, v.
Qed.

Lemma referencing_all_refs db dead b :
  b ∈ referencing db dead → b ∈ all_refs db.
Proof.
  intros (a & _ & r & fk & Hr & Hid & _)%elem_of_referencing.
  destruct b as [t i]. apply elem_of_all_refs. by exists r.
Qed.

Lemma cascade_incl n db dead x : x ∈ dead → x ∈ cascade n db dead.
Proof.
  revert dead. induction n as [|n IH]; intros dead Hx; simpl; [done|].
  apply IH, elem_of_app. by left.
Qed.

Lemma filter_nil_all {A} (P : A → Prop) `{∀ x, Decision (P x)} (l : list A) :
  filter P l = [] ↔ ∀ x, x ∈ l → ¬ P x.
Proof.
  split.
  - intros Hnil x Hx HP. by eapply (filter_nil_not_elem_of P).
  - intros Hall. induction l as [|a l IH]; [done|].
    rewrite filter_cons_False; [|apply Hall; by left].
    apply IH. intros x Hx. apply Hall. by right.
Qed.

Lemma cascade_of_closed n db dead :
  cascade_closed db dead → cascade n db dead = dead.
Proof.
  intros Hclosed. induction n as [|n IH]; simpl; [done|].
  assert (filter (λ x, x ∉ dead) (referencing db dead) = []) as ->.
  { apply filter_nil_all. intros x Hx Hnot. by apply Hnot, Hclosed. }
  by rewrite app_nil_r.
Qed.

(** Each round that is not the last adds a row, and there are only so many
    rows: after [n] rounds the set is closed, or it holds [n] rows that the
    start did not hold. *)
Lemma cascade_progress n db dead :
  cascade_closed db (cascade n db dead) ∨
  ∃ L, NoDup L ∧ length L = n ∧
       (∀ x, x ∈ L → x ∈ all_refs db ∧ x ∈ cascade n db dead ∧ x ∉ dead).
Proof.
  revert dead. induction n as [|n IH]; intros dead.
  { right. exists []. split; [constructor|]. split; [done|].
    intros x Hx. by apply elem_of_nil in Hx. }
  simpl. set (new := filter (λ x, x ∉ dead) (referencing db dead)).
  destruct (IH (dead ++ new)) as [Hclosed|(L & Hnd & Hlen & HL)]; [by left|].
  destruct new as [|x new'] eqn:Hnew.
  - left. rewrite app_nil_r.
    assert (cascade_closed db dead) as Hclosed.
    { intros b Hb. destruct (decide (b ∈ dead)) as [|Hnot]; [done|].
      exfalso. subst new.
      eapply (filter_nil_not_elem_of (λ x, x ∉ dead)); [exact Hnew| |exact Hb].
      done. }
    by rewrite cascade_of_closed.
  - right. exists (x :: L).
    assert (x ∈ referencing db dead ∧ x ∉ dead) as [Hx Hxdead].
    { assert (x ∈ new) as Hin by (rewrite Hnew; by left).
      subst new. apply list_elem_of_filter in Hin. tauto. }
    split; [|split; [simpl; by rewrite Hlen|]].
    + apply NoDup_cons. split; [|done]. intros HxL.
      destruct (HL x HxL) as (_ & _ & Hnot). apply Hnot.
      apply elem_of_app. right. by left.
    + intros y [->|Hy]%elem_of_cons.
      * split; [by eapply referencing_all_refs|]. split; [|done].
        apply cascade_incl, elem_of_app. right. by left.
      * destruct (HL y Hy) as (Hall & Hin & Hnot).
        split; [done|]. split; [done|]. intros Hd. apply Hnot.
        apply elem_of_app. by left.
Qed.

(** After as many rounds as there are rows nothing is left to add. *)
Lemma cascade_is_closed n db dead :
  row_count db ≤ n → cascade_closed db (cascade n db dead).
Proof.
  intros Hn. destruct (cascade_progress n db dead)
    as [Hclosed|(L & Hnd & Hlen & HL)]; [done|].
  intros b Hb%referencing_all_refs.
  assert (L ≡ₚ all_refs db) as Hperm.
  { apply submseteq_length_Permutation.
    - apply NoDup_submseteq; [done|]. intros x Hx. by apply HL.
    - pose proof (length_all_refs db). lia. }
  rewrite <- Hperm in Hb. by apply HL.
Qed.

(** What the cascade reaches is what the start points at, step by step. *)
Lemma cascade_sound n db dead x :
  x ∈ cascade n db dead → ∃ a, a ∈ dead ∧ rtc (points_at db) a x.
Proof.
  revert dead. induction n as [|n IH]; intros dead; simpl.
  { intros Hx. by exists x. }
  intros (a & [Ha|Ha]%elem_of_app & Hax)%IH; [by exists a|].
  apply list_elem_of_filter in Ha as [_ Ha].
  apply elem_of_referencing in Ha as (a0 & Ha0 & Hstep).
  exists a0. split; [done|]. by eapply rtc_l.
Qed.

Lemma closed_reach db dead a x :
  cascade_closed db dead → a ∈ dead → rtc (points_at db) a x → x ∈ dead.
Proof.
  intros Hclosed Ha Hrtc. induction Hrtc as [|a b x Hab _ IH]; [done|].
  apply IH, Hclosed, elem_of_referencing. by exists a.
Qed.

Lemma elem_of_cascade db dead x :
  x ∈ cascade (row_count db) db dead ↔
  ∃ a, a ∈ dead ∧ rtc (points_at db) a x.
Proof.
  split; [apply cascade_sound|].
  intros (a & Ha & Hrtc).
  eapply closed_reach; [by apply cascade_is_closed| |exact Hrtc].
  by apply cascade_incl.
Qed.

(** *** The cascade below a folder *)

Lemma points_at_from_folder db x b :
  points_at db (Prep_folders, x) b ↔
  (∃ i, b = (Prep_folders, i) ∧ row_parent db x i) ∨
  (∃ i, b = (Prep_items, i) ∧ item_in db x i).
Proof.
  unfold points_at, row_parent, item_in. destruct b as [t i]. simpl. split.
  - intros (r & fk & Hr & Hid & Hfk & _ & Ht & Hcell).
    destruct t; simpl in Hfk;
      repeat (apply elem_of_cons in Hfk as [->|Hfk]);
      try (by apply elem_of_nil in Hfk); simpl in *; try done.
    + left. exists i. split; [done|]. by exists r.
    + right. exists i. split; [done|]. by exists r.
  - intros [(i' & [= -> ->] & r & Hr & Hid & Hcell)
           |(i' & [= -> ->] & r & Hr & Hid & Hcell)].
    + exists r, (mkForeignKey "parent_id" Prep_folders true).
      simpl. repeat split; [done|done| |done..]. set_solver.
    + exists r, (mkForeignKey "folder_id" Prep_folders true).
      simpl. repeat split; [done|done| |done..]. set_solver.
Qed.

Lemma points_at_from_item db x b : ¬ points_at db (Prep_items, x) b.
Proof.
  intros (r & fk & _ & _ & Hfk & _ & Ht & _). destruct b as [t i].
  destruct t; simpl in Hfk;
    repeat (apply elem_of_cons in Hfk as [->|Hfk]);
    try (by apply elem_of_nil in Hfk); done.
Qed.

(** From a folder the cascade reaches the folders below it and the items
    in them, and nothing else. *)
Lemma reach_from_folder db x b :
  rtc (points_at db) (Prep_folders, x) b ↔
  (∃ i, b = (Prep_folders, i) ∧ in_subtree db x i) ∨
  (∃ i y, b = (Prep_items, i) ∧ in_subtree db x y ∧ item_in db y i).
Proof.
  unfold in_subtree. split.
  - revert b. apply rtc_ind_r.
    { left. by exists x. }
    intros b c _ Hstep [(i & -> & Hi)|(i & y & -> & _)].
    + apply points_at_from_folder in Hstep
        as [(j & -> & Hj)|(j & -> & Hj)].
      * left. exists j. split; [done|]. by eapply rtc_r.
      * right. by exists j, i.
    + by apply points_at_from_item in Hstep.
  - assert (∀ i, rtc (row_parent db) x i →
                 rtc (points_at db) (Prep_folders, x) (Prep_folders, i))
      as Hfolders.
    { apply rtc_ind_r; [done|]. intros i j _ Hstep IH.
      eapply rtc_r; [exact IH|]. apply points_at_from_folder.
      left. by exists j. }
    intros [(i & -> & Hi)|(i & y & -> & Hy & Hitem)]; [by apply Hfolders|].
    eapply rtc_r; [by apply Hfolders|]. apply points_at_from_folder.
    right. by exists i.
Qed.

Lemma no_restricting_key dead t r : restricts dead t r = false.
Proof. by destruct t. Qed.

Lemma not_restricted db dead : restricted db dead = false.
Proof.
  unfold restricted. apply not_true_iff_false.
  rewrite existsb_exists. intros (t & _ & H).
  apply existsb_exists in H as (r & _ & H).
  by rewrite no_restricting_key, andb_false_r in H.
Qed.

Lemma matching_id x r : matching "id" x r ↔ row_id r = Some x.
Proof.
  unfold matching, row_id. destruct (r !! "id") as [[| |]|]; naive_solver.
Qed.

Lemma filter_all {A} (P : A → Prop) `{∀ x, Decision (P x)} (l : list A) :
  (∀ x, x ∈ l → P x) → filter P l = l.
Proof.
  intros Hall. induction l as [|a l IH]; [done|].
  rewrite filter_cons_True; [|apply Hall; by left].
  f_equal. apply IH. intros x Hx. apply Hall. by right.
Qed.

Lemma ids_of_cons r rows :
  ids_of (r :: rows) =
  match row_id r with Some i => i :: ids_of rows | None => ids_of rows end.
Proof. done. Qed.

(** Under a primary key, two rows with one key are one row. *)
Lemma same_key_same_row (rows : list row) r r0 i :
  NoDup (ids_of rows) → r ∈ rows → r0 ∈ rows →
  row_id r = Some i → row_id r0 = Some i → r = r0.
Proof.
  induction rows as [|a rows IH]; intros Hnd Hr Hr0 Hi Hi0.
  { by apply elem_of_nil in Hr. }
  rewrite ids_of_cons in Hnd.
  apply elem_of_cons in Hr as [->|Hr]; apply elem_of_cons in Hr0 as [->|Hr0];
    [done| | |].
  - rewrite Hi in Hnd. apply NoDup_cons in Hnd as [Hnot _].
    exfalso. apply Hnot, elem_of_ids_of. by exists r0.
  - rewrite Hi0 in Hnd. apply NoDup_cons in Hnd as [Hnot _].
    exfalso. apply Hnot, elem_of_ids_of. by exists r.
  - apply IH; [|done..]. destruct (row_id a); [|done].
    by apply NoDup_cons in Hnd as [_ Hnd].
Qed.

(** The rows a delete of folder [x] starts from. *)
Lemma delete_targets e db x a :
  a ∈ (λ i, (Prep_folders, i)) <$>
        ids_of (filter (λ r, matching "id" x r ∧
                             rls_using e Prep_folders DELETE r = true)
                       (db Prep_folders)) ↔
  a = (Prep_folders, x) ∧ deletable e db x.
Proof.
  unfold deletable. rewrite list_elem_of_fmap. split.
  - intros (i & -> & (r & Hr & Hid)%elem_of_ids_of).
    apply list_elem_of_filter in Hr as [[Hm Hrls] Hr].
    pose proof Hm as Hm'. apply matching_id in Hm'.
    split; [congruence|]. by exists r.
  - intros (-> & r & Hr & Hm & Hrls). exists x. split; [done|].
    apply elem_of_ids_of. exists r. split; [|by apply matching_id].
    by apply list_elem_of_filter.
Qed.

Lemma folder_delete_dead e db x b :
  b ∈ cascade (row_count db) db
        ((λ i, (Prep_folders, i)) <$>
           ids_of (filter (λ r, matching "id" x r ∧
                                rls_using e Prep_folders DELETE r = true)
                          (db Prep_folders))) ↔
  deletable e db x ∧
  ((∃ i, b = (Prep_folders, i) ∧ in_subtree db x i) ∨
   (∃ i y, b = (Prep_items, i) ∧ in_subtree db x y ∧ item_in db y i)).
Proof.
  rewrite elem_of_cascade. split.
  - intros (a & [-> Hdel]%delete_targets & Hrtc).
    split; [done|]. by apply reach_from_folder.
  - intros [Hdel Hreach]. exists (Prep_folders, x).
    split; [by apply delete_targets|]. by apply reach_from_folder.
Qed.

Lemma exec_delete_folder e db x :
  exec_delete e db Prep_folders "id" x =
  (Ok (), remove_rows db
            (cascade (row_count db) db
               ((λ i, (Prep_folders, i)) <$>
                  ids_of (filter (λ r, matching "id" x r ∧
                                       rls_using e Prep_folders DELETE r = true)
                                 (db Prep_folders))))).
Proof.
  unfold exec_delete.
  assert (has_column Prep_folders "id" = true) as Hcol
    by (vm_compute; reflexivity).
  cbn [rls_enabled negb]. rewrite Hcol, not_restricted. done.
Qed.


Lemma scenario_primary_keys : primary_keys scenario_db.
Proof.
  intros t. split.
  - apply (bool_decide_unpack _). by destruct t; vm_compute.
  - intros r Hr. destruct t; simpl in Hr;
      repeat (apply elem_of_cons in Hr as [->|Hr]);
      try (by apply elem_of_nil in Hr); by eexists.
Qed.


(** The scenario of the spec: deleting [A] takes [B], [C] and [x] along;
    the second user cannot delete [A]. *)
Example scenario_delete :
  let db' := (exec_delete (env_of user1) scenario_db Prep_folders "id"
                          (js "A")).2 in
  let db'' := (exec_delete (env_of user2) scenario_db Prep_folders "id"
                           (js "A")).2 in
  db' Prep_folders = [] ∧ db' Prep_items = [] ∧
  db' Jobs = scenario_db Jobs ∧ db' Profiles = scenario_db Profiles ∧
  db'' Prep_folders = scenario_db Prep_folders ∧
  db'' Prep_items = scenario_db Prep_items.
Proof. cbv zeta. repeat split; vm_compute; reflexivity. Qed.

(** ** The constraints are kept *)

Lemma columns_ok_row_id t r : columns_ok t r = true → is_Some (row_id r).
Proof.
  unfold columns_ok. rewrite forallb_forall. intros Hcols.
  assert (∃ d, In (mkColumn "id" TText true d) (columns_of t)) as [d Hd].
  { destruct t; eexists; simpl; left; reflexivity. }
  specialize (Hcols _ Hd). unfold well_typed, cell, row_id in *. simpl in *.
  destruct (r !! "id") as [[| |]|]; simpl in *; by eauto.
Qed.

Lemma foreign_keys_ok_spec db t r :
  foreign_keys_ok db t r = true ↔
  ∀ fk, fk ∈ foreign_keys_of t →
        match cell r (fk_column fk) with
        | VText v => v ∈ ids_of (db (fk_target fk))
        | VNull => True
        | VArray _ => False
        end.
Proof.
  unfold foreign_keys_ok. rewrite forallb_forall. split.
  - intros H fk Hfk%list_elem_of_In. specialize (H fk Hfk).
    destruct (cell r (fk_column fk)); [done| |done].
    by apply bool_decide_eq_true in H.
  - intros H fk Hfk%list_elem_of_In. specialize (H fk Hfk).
    destruct (cell r (fk_column fk)); [done| |done].
    by apply bool_decide_eq_true_2.
Qed.

Lemma db_foreign_keys_ok_spec db :
  db_foreign_keys_ok db = true ↔
  ∀ t r, r ∈ db t → foreign_keys_ok db t r = true.
Proof.
  unfold db_foreign_keys_ok. rewrite forallb_forall. split.
  - intros H t r Hr. specialize (H t). rewrite forallb_forall in H.
    apply H; [apply list_elem_of_In, elem_of_all_tables|].
    by apply list_elem_of_In.
  - intros H t _. apply forallb_forall. intros r Hr%list_elem_of_In.
    by apply H.
Qed.

Lemma foreign_keys_ok_mono db db' t r :
  (∀ t' i, i ∈ ids_of (db t') → i ∈ ids_of (db' t')) →
  foreign_keys_ok db t r = true → foreign_keys_ok db' t r = true.
Proof.
  intros Hmono. rewrite !foreign_keys_ok_spec. intros H fk Hfk.
  specialize (H fk Hfk). destruct (cell r (fk_column fk)); [done| |done].
  by apply Hmono.
Qed.

Lemma exec_insert_Err returning e db t payload x db' :
  exec_insert returning e db t payload = (Err x, db') → db' = db.
Proof.
  unfold exec_insert.
  repeat (match goal with
          | |- context [if negb ?c then _ else _] =>
              destruct c eqn:?; simpl; [|by intros [= _ <-]]
          | |- context [if ?c then _ else _] =>
              destruct c eqn:?; simpl; [by intros [= _ <-]|]
          end).
  intros [=].
Qed.

Lemma exec_insert_fresh returning e db t payload r db' i :
  exec_insert returning e db t payload = (Ok r, db') →
  row_id r = Some i → i ∉ ids_of (db t).
Proof.
  unfold exec_insert.
  repeat (match goal with
          | |- context [if negb ?c then _ else _] =>
              destruct c eqn:?; simpl; [|by intros [=]]
          | |- context [if ?c then _ else _] =>
              destruct c eqn:?; simpl; [by intros [=]|]
          end).
  intros [= <- _] Hid.
  match goal with H : match row_id _ with _ => _ end = false |- _ =>
    rewrite Hid in H; by apply bool_decide_eq_false in H end.
Qed.

Lemma ids_of_app l1 l2 : ids_of (l1 ++ l2) = ids_of l1 ++ ids_of l2.
Proof. unfold ids_of. apply omap_app. Qed.

Lemma exec_insert_consistent returning e db t payload res db' :
  consistent db →
  exec_insert returning e db t payload = (res, db') → consistent db'.
Proof.
  intros (Hpk & Hrows & Hfk) Hexec.
  destruct res as [r|x]; [|by apply exec_insert_Err in Hexec as ->].
  pose proof (λ i, exec_insert_fresh _ _ _ _ _ _ _ i Hexec) as Hfresh.
  apply exec_insert_Ok in Hexec as (_ & -> & _ & Hcols & Hchecks & Hfkr).
  assert (∀ t' i, i ∈ ids_of (db t') →
                  i ∈ ids_of (db_set db t (db t ++ [r]) t')) as Hmono.
  { intros t' i Hi. unfold db_set. case_decide as Ht; [subst t'|done].
    rewrite ids_of_app. apply elem_of_app. by left. }
  split; [|split].
  - intros t'. unfold db_set. case_decide as Ht; [subst t'|apply Hpk].
    rewrite ids_of_app. apply NoDup_app. split; [apply Hpk|]. split.
    + intros i Hi Hi'. destruct (columns_ok_row_id _ _ Hcols) as [j Hj].
      rewrite ids_of_cons, Hj in Hi'.
      apply list_elem_of_singleton in Hi' as ->. by eapply Hfresh.
    + rewrite ids_of_cons. destruct (row_id r); [apply NoDup_singleton|].
      constructor.
  - intros t' r' Hr'. unfold db_set in Hr'.
    case_decide as Ht; [subst t'|by apply Hrows].
    apply elem_of_app in Hr' as [Hr'|Hr']; [by apply Hrows|].
    by apply list_elem_of_singleton in Hr' as ->.
  - apply db_foreign_keys_ok_spec. intros t' r' Hr'.
    rewrite db_foreign_keys_ok_spec in Hfk. unfold db_set in Hr'.
    case_decide as Ht; [subst t'|].
    + apply elem_of_app in Hr' as [Hr'|Hr'].
      * eapply foreign_keys_ok_mono; [exact Hmono|by apply Hfk].
      * by apply list_elem_of_singleton in Hr' as ->.
    + eapply foreign_keys_ok_mono; [exact Hmono|by apply Hfk].
Qed.

Lemma all_keys_cascade t fk :
  fk ∈ foreign_keys_of t → fk_on_delete_cascade fk = true.
Proof.
  intros Hfk. destruct t; simpl in Hfk;
    repeat (apply elem_of_cons in Hfk as [->|Hfk]);
    try (by apply elem_of_nil in Hfk); done.
Qed.

Lemma ids_of_filter_NoDup (P : row → Prop) `{∀ r, Decision (P r)} rows :
  NoDup (ids_of rows) → NoDup (ids_of (filter P rows)).
Proof.
  induction rows as [|r rows IH]; [done|]. rewrite ids_of_cons.
  intros Hnd.
  assert (NoDup (ids_of rows)) as Hnd'.
  { destruct (row_id r); [by apply NoDup_cons in Hnd as [_ ?]|done]. }
  destruct (decide (P r)).
  - rewrite filter_cons_True by done. rewrite ids_of_cons.
    destruct (row_id r) as [i|]; [|by apply IH].
    apply NoDup_cons in Hnd as [Hnot _]. apply NoDup_cons.
    split; [|by apply IH]. intros (r0 & Hr0 & Hid)%elem_of_ids_of.
    apply Hnot, elem_of_ids_of. exists r0. split; [|done].
    by apply list_elem_of_filter in Hr0 as [_ ?].
  - rewrite filter_cons_False by done. by apply IH.
Qed.

(** Removing a set of rows that the cascade cannot enlarge leaves no
    dangling reference. *)
Lemma remove_rows_consistent db dead :
  consistent db → cascade_closed db dead → consistent (remove_rows db dead).
Proof.
  intros (Hpk & Hrows & Hfk) Hclosed. unfold remove_rows.
  split; [|split].
  - intros t. by apply ids_of_filter_NoDup.
  - intros t r [_ Hr]%list_elem_of_filter. by apply Hrows.
  - apply db_foreign_keys_ok_spec. intros t r [Hlive Hr]%list_elem_of_filter.
    rewrite db_foreign_keys_ok_spec in Hfk. specialize (Hfk t r Hr).
    rewrite foreign_keys_ok_spec in Hfk. apply foreign_keys_ok_spec.
    intros fk Hfkin. specialize (Hfk fk Hfkin).
    destruct (cell r (fk_column fk)) as [|v|] eqn:Hcell; [done| |done].
    apply elem_of_ids_of in Hfk as (r0 & Hr0 & Hid0).
    apply elem_of_ids_of. exists r0. split; [|done].
    apply list_elem_of_filter. split; [|done].
    unfold is_dead. rewrite Hid0. intros Hdead. apply Hlive.
    destruct (Hrows t r Hr) as [Hcols _].
    destruct (columns_ok_row_id _ _ Hcols) as [i Hid].
    unfold is_dead. rewrite Hid. apply Hclosed, elem_of_referencing.
    exists (fk_target fk, v). split; [done|].
    exists r, fk. simpl. repeat split; [done|done|done| |done].
    by eapply all_keys_cascade.
Qed.

Lemma exec_delete_consistent e db t c v res db' :
  consistent db → exec_delete e db t c v = (res, db') → consistent db'.
Proof.
  intros Hok. unfold exec_delete.
  repeat (match goal with
          | |- context [if negb ?c then _ else _] =>
              destruct c eqn:?; simpl; [|by intros [= _ <-]]
          | |- context [if ?c then _ else _] =>
              destruct c eqn:?; simpl; [by intros [= _ <-]|]
          end).
  intros [= _ <-]. apply remove_rows_consistent; [done|].
  by apply cascade_is_closed.
Qed.

Lemma exec_update_consistent e db t patch c v res db' :
  consistent db → exec_update e db t patch c v = (res, db') → consistent db'.
Proof.
  intros (Hpk & Hrows & Hfk). unfold exec_update.
  repeat (match goal with
          | |- context [if negb ?c then _ else _] =>
              destruct c eqn:?; simpl; [|by intros [= _ <-]]
          | |- context [if ?c then _ else _] =>
              destruct c eqn:?; simpl; [by intros [= _ <-]|]
          end).
  intros [= _ <-].
  repeat match goal with
         | H : forallb _ _ = true |- _ => rewrite forallb_forall in H
         | H : bool_decide _ = true |- _ => apply bool_decide_eq_true in H
         end.
  split; [|split; [|done]].
  - intros t'. destruct (decide (t' = t)) as [->|Hne]; [done|].
    rewrite db_set_ne by done. apply Hpk.
  - intros t' r'. destruct (decide (t' = t)) as [->|Hne];
      [|rewrite db_set_ne by done; apply Hrows].
    rewrite db_set_eq. intros (r & -> & Hr)%list_elem_of_fmap.
    case_decide as Hhit; [|by apply Hrows].
    assert (In (patch ∪ r)
              ((λ r, patch ∪ r) <$>
                 filter (λ r, matching c v r ∧ rls_using e t UPDATE r = true)
                        (db t))) as Hin.
    { apply list_elem_of_In, list_elem_of_fmap_2.
      by apply list_elem_of_filter. }
    split; auto.
Qed.

Lemma supabase_exec_consistent
    (e : env) {R} (call : storage_call R) (db : DB) :
  consistent db → consistent (supabase_exec e call db).2.
Proof.
  intros Hok. destruct call; simpl; try done.
  - destruct (exec_insert false e db t payload) as [[r|x] db'] eqn:Hexec;
      simpl; by eapply exec_insert_consistent.
  - destruct (exec_insert true e db t payload) as [res db'] eqn:Hexec.
    by eapply exec_insert_consistent.
  - destruct (exec_update e db t patch c v) as [res db'] eqn:Hexec.
    by eapply exec_update_consistent.
  - destruct (exec_delete e db t c v) as [res db'] eqn:Hexec.
    by eapply exec_delete_consistent.
Qed.

Lemma run_consistent {S} e answer (p : prog S) st db :
  consistent db → consistent (@o_store S DB (run (supabase e) answer p st db)).
Proof.
  revert st db.
  induction p as [|f k IH|t k IH|msg k IH|R c k IH]; intros st db Hok;
    simpl; [done|by apply IH|by apply IH|by apply IH|].
  pose proof (supabase_exec_consistent e c db Hok) as Hok'.
  destruct (supabase_exec e c db) as [r db']. by apply IH.
Qed.

Lemma scenario_consistent : consistent scenario_db.
Proof.
  split; [|split].
  - intros t. apply (bool_decide_unpack _). by destruct t; vm_compute.
  - intros t r Hr. destruct t; simpl in Hr;
      repeat (apply elem_of_cons in Hr as [->|Hr]);
      try (by apply elem_of_nil in Hr); by vm_compute.
  - by vm_compute.
Qed.



(** ** The tree of an arbitrary collection *)

Section any_collection.
Variable folders : list PrepFolder.
Variable expandedFolders : gset jsstring.
Hypothesis Hunique : unique_ids folders.

Local Abbreviation build := (buildFolderTree_fuel folders expandedFolders).

Lemma same_id_same_folder f g :
  f ∈ folders → g ∈ folders → pf_id f = pf_id g → f = g.
Proof using Hunique.
  intros. by eapply (NoDup_fmap_inj_on pf_id); [exact Hunique|..].
Qed.

Lemma depth_is_folder d x :
  depth_is folders d x → ∃ f, f ∈ folders ∧ pf_id f = x.
Proof. destruct 1 as [f|f]; by exists f. Qed.

Lemma depth_functional d d' x :
  depth_is folders d x → depth_is folders d' x → d = d'.
Proof using Hunique.
  intros Hd. revert d'.
  induction Hd as [f Hf Hp|f q d Hf Hp _ IH]; intros d' Hd';
    inversion Hd' as [g Hg Hq Hid|g q' d'' Hg Hq Hd'' Hid]; subst.
  - done.
  - assert (g = f) as -> by by apply same_id_same_folder. congruence.
  - assert (g = f) as -> by by apply same_id_same_folder. congruence.
  - assert (g = f) as -> by by apply same_id_same_folder.
    assert (q' = q) as -> by congruence. f_equal. by apply IH.
Qed.

(** Going up along a parent reference lowers the depth by one. *)
Lemma depth_of_parent d q y :
  depth_is folders d y → is_parent folders q y →
  ∃ d', d = S d' ∧ depth_is folders d' q.
Proof using Hunique.
  intros Hd (f & Hf & <- & Hp).
  inversion Hd as [g Hg Hq Hid|g q' d'' Hg Hq Hd'' Hid]; subst.
  - assert (g = f) as -> by by apply same_id_same_folder. congruence.
  - assert (g = f) as -> by by apply same_id_same_folder.
    exists d''. split; [done|]. congruence.
Qed.

Lemma depth_of_ancestor d x y :
  descendant folders x y → depth_is folders d y →
  ∃ d', d' < d ∧ depth_is folders d' x.
Proof using Hunique.
  intros Hdesc. revert d.
  induction Hdesc as [x y Hxy|x y z Hxy _ IH]; intros d Hd.
  - destruct (depth_of_parent _ _ _ Hd Hxy) as (d' & -> & Hd').
    exists d'. split; [lia|done].
  - destruct (IH _ Hd) as (d1 & Hlt & Hd1).
    destruct (depth_of_parent _ _ _ Hd1 Hxy) as (d' & -> & Hd').
    exists d'. split; [lia|done].
Qed.

(** A folder with a depth is on no cycle. *)
Lemma depth_no_cycle d x :
  depth_is folders d x → ¬ descendant folders x x.
Proof using Hunique.
  intros Hd Hcycle.
  destruct (depth_of_ancestor _ _ _ Hcycle Hd) as (d' & Hlt & Hd').
  pose proof (depth_functional _ _ _ Hd Hd'). lia.
Qed.

(** From the null parent the recursion always returns: the folders on
    one branch have the depths 0, 1, 2, ... and so are distinct. *)
Lemma build_from_null_returns :
  is_Some (build (S (length folders)) None).
Proof using Hunique.
  assert (∀ k chain p,
    NoDup chain → (∀ z, z ∈ chain → z ∈ pf_id <$> folders) →
    (∀ z, z ∈ chain → ∃ d, d < length chain ∧ depth_is folders d z) →
    match p with
    | None => chain = []
    | Some y => ∃ n, length chain = S n ∧ depth_is folders n y
    end →
    length folders < length chain + k → is_Some (build k p)) as Hgen.
  { induction k as [|k IH]; intros chain p Hnd Hin Hdepth Hp Hlen.
    - pose proof (chain_bound _ chain Hnd Hin) as Hb.
      rewrite length_fmap in Hb. lia.
    - simpl. apply mapM_is_Some, Forall_forall. intros c Hc.
      apply list_elem_of_filter in Hc as [Hpar Hc]. simpl.
      assert (depth_is folders (length chain) (pf_id c)) as Hdc.
      { destruct p as [y|].
        - destruct Hp as (n & -> & Hn). by eapply depth_child.
        - subst chain. by apply depth_root. }
      destruct (IH (pf_id c :: chain) (Some (pf_id c))) as [kids ->];
        [| | | |simpl; lia|by eexists].
      + apply NoDup_cons. split; [|done]. intros Hcin.
        destruct (Hdepth _ Hcin) as (d & Hlt & Hd).
        pose proof (depth_functional _ _ _ Hd Hdc). lia.
      + intros z [->|Hz]%elem_of_cons; [|by apply Hin].
        by apply list_elem_of_fmap_2.
      + intros z [->|Hz]%elem_of_cons.
        * exists (length chain). split; [simpl; lia|done].
        * destruct (Hdepth _ Hz) as (d & Hlt & Hd).
          exists d. split; [simpl; lia|done].
      + exists (length chain). by split. }
  apply (Hgen _ [] None); [constructor| | |done|simpl; lia];
    intros z Hz; by apply elem_of_nil in Hz.
Qed.

Lemma build_shows_depth k forest f :
  build k None = Some forest → f ∈ forest_folders forest →
  f ∈ folders ∧ ∃ d, depth_is folders d (pf_id f).
Proof using Hunique.
  intros Hb Hf. destruct (build_below _ _ _ _ _ _ Hb Hf) as [Hin Hbelow].
  split; [done|]. destruct Hbelow as [Hp|(c & Hc & Hp & Hdesc)].
  - exists 0. by apply depth_root.
  - assert (∀ x z, descendant folders x z → ∀ d, depth_is folders d x →
                   ∃ d', depth_is folders d' z) as Hdown.
    { induction 1 as [x z (g & Hg & <- & Hgp)|x y z (g & Hg & <- & Hgp) _ IH];
        intros d Hd.
      - exists (S d). by eapply depth_child.
      - apply (IH (S d)). by eapply depth_child. }
    apply (Hdown _ _ Hdesc 0). by apply depth_root.
Qed.

Lemma build_covers_depth k forest d x :
  build k None = Some forest → depth_is folders d x →
  ∀ g, g ∈ folders → pf_id g = x → g ∈ forest_folders forest.
Proof using Hunique.
  intros Hb Hd. induction Hd as [f Hf Hp|f q d Hf Hp Hq IH]; intros g Hg Hid.
  - assert (g = f) as -> by by apply same_id_same_folder.
    apply build_roots in Hb as Hroots.
    assert (f ∈ node_folder <$> forest) as (m & -> & Hm)%list_elem_of_fmap.
    { rewrite Hroots. by apply list_elem_of_filter. }
    by apply list_elem_of_fmap_2, roots_in_forest_nodes.
  - assert (g = f) as -> by by apply same_id_same_folder.
    destruct (depth_is_folder _ _ Hq) as (h & Hh & Hhid).
    pose proof (IH h Hh Hhid) as (n & -> & Hn)%list_elem_of_fmap.
    destruct (build_nodes _ _ _ _ _ _ Hb Hn) as (_ & _ & Hkids).
    assert (f ∈ node_folder <$> children n) as (m & -> & Hm)%list_elem_of_fmap.
    { rewrite Hkids. apply list_elem_of_filter. split; [congruence|done]. }
    apply list_elem_of_fmap_2. by eapply children_in_forest_nodes.
Qed.
End any_collection.

(** Whatever the parent references are, as long as the identifiers are a
    primary key [buildFolderTree(null)] returns.  The forest shows exactly
    the folders that reach a folder without parent by following parent
    references; a folder that is its own descendant is never shown (it
    makes no branch of the display tree long). *)
Theorem buildFolderTree_null_total
    (folders : list PrepFolder) (expandedFolders : gset jsstring) :
  unique_ids folders →
  ∃ forest,
    buildFolderTree folders expandedFolders None = Some forest ∧
    (∀ f, f ∈ forest_folders forest ↔
          f ∈ folders ∧ ∃ d, depth_is folders d (pf_id f)) ∧
    (∀ f, f ∈ forest_folders forest →
          ¬ descendant folders (pf_id f) (pf_id f)).
Proof.
  intros Huniq.
  destruct (build_from_null_returns folders expandedFolders Huniq)
    as [forest Hb].
  exists forest. split; [exact Hb|].
  assert (∀ f, f ∈ forest_folders forest →
               f ∈ folders ∧ ∃ d, depth_is folders d (pf_id f)) as Hshown.
  { intros f. by eapply build_shows_depth. }
  split.
  - intros f. split; [apply Hshown|].
    intros (Hf & d & Hd). by eapply build_covers_depth.
  - intros f (_ & d & Hd)%Hshown. by eapply depth_no_cycle.
Qed.

Lemma buildFolderTree_null_total_witness :
  ∃ forest,
    buildFolderTree mixed_folders ∅ None = Some forest ∧
    (∀ f, f ∈ forest_folders forest ↔
          f ∈ mixed_folders ∧ ∃ d, depth_is mixed_folders d (pf_id f)) ∧
    (∀ f, f ∈ forest_folders forest →
          ¬ descendant mixed_folders (pf_id f) (pf_id f)).
Proof.
  apply (buildFolderTree_null_total mixed_folders ∅).
  unfold unique_ids. apply (bool_decide_unpack _). vm_compute. exact I.
Defined.

(** The two folders of the loop are left out of the display. *)
Example mixed_tree :
  buildFolderTree mixed_folders ∅ None = Some [mkNode folderA [] false].
Proof. vm_compute. reflexivity. Qed.

(** ** Failed requests *)

Ltac split_run :=
  repeat (match goal with
          | |- context [b_exec ?B ?R ?c ?b] =>
              destruct (b_exec B R c b) as [[?|?] ?]; simpl
          | |- context [if ?c then _ else _] => destruct c; simpl
          | |- context [match ?x with Some _ => _ | None => _ end] =>
              destruct x; simpl
          end).

Ltac solve_failure :=
  unfold failed_cleanly, first_request_failed; simpl; split_run;
  try (by intros [=]); intros _; eauto.

(** When the request of a save or a delete on the [Preparation] page
    fails, whatever the backend is, the page state is what it was before
    the click, one error notification is shown, and nothing else is
    requested; the same click can be repeated on the same state. *)
Theorem preparation_failed_write
    (user : option jsstring) (now : jsstring) (s : Preparation.State)
    (B : backend) (answer : jsstring → bool) (b : b_store B) :
  (let o := run B answer (Preparation.createRootFolder user s) s b in
   first_request_failed o → failed_cleanly s o) ∧
  (let o := run B answer (Preparation.handleSaveFolder user now s) s b in
   first_request_failed o → failed_cleanly s o) ∧
  (let o := run B answer (Preparation.handleSaveItem user now s) s b in
   first_request_failed o → failed_cleanly s o) ∧
  (∀ id,
     let o := run B answer (Preparation.handleDeleteFolder user s id) s b in
     first_request_failed o → failed_cleanly s o) ∧
  (∀ id,
     let o := run B answer (Preparation.handleDeleteItem user s id) s b in
     first_request_failed o → failed_cleanly s o).
Proof.
  split; [|split; [|split; [|split]]].
  - unfold Preparation.createRootFolder. solve_failure.
  - unfold Preparation.handleSaveFolder. solve_failure.
  - unfold Preparation.handleSaveItem. solve_failure.
  - intros id. unfold Preparation.handleDeleteFolder. solve_failure.
  - intros id. unfold Preparation.handleDeleteItem. solve_failure.
Qed.

Lemma preparation_failed_write_witness :
  failed_cleanly loaded_state
    (run offline (λ _, true)
         (Preparation.handleSaveFolder (Some user1) t0 loaded_state)
         loaded_state ()) ∧
  failed_cleanly loaded_state
    (run offline (λ _, true)
         (Preparation.handleDeleteFolder (Some user1) loaded_state (js "A"))
         loaded_state ()).
Proof.
  destruct (preparation_failed_write (Some user1) t0 loaded_state offline
              (λ _, true) ()) as (_ & Hsave & _ & Hdelete & _).
  split.
  - apply Hsave. vm_compute. reflexivity.
  - apply (Hdelete (js "A")). vm_compute. reflexivity.
Defined.

(** The same on the [Dashboard], [Stories] and [Notes] pages, for the
    create path of the [Notes] form; a failed load of the profile on the
    [Settings] page likewise.  A failed profile update differs in one
    cell: the busy flag, raised before the request, is lowered again. *)
Theorem pages_failed_write
    (user : option jsstring) (now : jsstring)
    (B : backend) (answer : jsstring → bool) (b : b_store B) :
  (∀ s, let o := run B answer (Dashboard.handleSubmit user now s) s b in
        first_request_failed o → failed_cleanly s o) ∧
  (∀ s id, let o := run B answer (Dashboard.handleDelete id) s b in
           first_request_failed o → failed_cleanly s o) ∧
  (∀ s, let o := run B answer (StoriesPage.handleSubmit user now s) s b in
        first_request_failed o → failed_cleanly s o) ∧
  (∀ s id, let o := run B answer (StoriesPage.handleDelete id) s b in
           first_request_failed o → failed_cleanly s o) ∧
  (∀ s, NotesPage.editingNote s = None →
        let o := run B answer (NotesPage.handleSubmit user now s) s b in
        first_request_failed o → failed_cleanly s o) ∧
  (∀ s id, let o := run B answer (NotesPage.handleDelete id) s b in
           first_request_failed o → failed_cleanly s o) ∧
  (∀ s email,
     let o := run B answer (SettingsPage.fetchProfile user email) s b in
     first_request_failed o → failed_cleanly s o) ∧
  (∀ s,
     let o := run B answer (SettingsPage.handleUpdateProfile user now s) s b in
     first_request_failed o →
     failed_cleanly (SettingsPage.setIsLoading false s) o).
Proof.
  split; [|split; [|split; [|split; [|split; [|split; [|split]]]]]].
  - intros s. unfold Dashboard.handleSubmit. solve_failure.
  - intros s id. unfold Dashboard.handleDelete. solve_failure.
  - intros s. unfold StoriesPage.handleSubmit. solve_failure.
  - intros s id. unfold StoriesPage.handleDelete. solve_failure.
  - intros s Hnew. unfold NotesPage.handleSubmit. rewrite Hnew.
    solve_failure.
  - intros s id. unfold NotesPage.handleDelete. solve_failure.
  - intros s email. unfold SettingsPage.fetchProfile. solve_failure.
  - intros s. unfold SettingsPage.handleUpdateProfile. solve_failure.
Qed.

Lemma pages_failed_write_witness :
  failed_cleanly draft_note_state
    (run offline (λ _, true)
         (NotesPage.handleSubmit (Some user1) t0 draft_note_state)
         draft_note_state ()) ∧
  failed_cleanly tagged_stories_state
    (run offline (λ _, true)
         (StoriesPage.handleSubmit (Some user1) t0 tagged_stories_state)
         tagged_stories_state ()).
Proof.
  destruct (pages_failed_write (Some user1) t0 offline (λ _, true) ())
    as (_ & _ & Hstory & _ & Hnote & _).
  split.
  - apply (Hnote draft_note_state); [reflexivity|].
    vm_compute. reflexivity.
  - apply (Hstory tagged_stories_state). vm_compute. reflexivity.
Defined.

(** ** Loading *)

Ltac refute_elem :=
  let H := fresh in
  intros H;
  repeat (apply elem_of_cons in H as [H|H]; [discriminate H|]);
  by apply elem_of_nil in H.

Ltac solve_fetch :=
  unfold some_request_failed; simpl; split_run;
  (split; [reflexivity|]);
  first [ refute_elem | intros _; split; reflexivity ].

(** Loading is all or nothing, and always ends.  The [Preparation]
    page asks for the folders and for the items; when either request
    fails, neither list is replaced and the selection is left alone, so
    the page never shows the folders of one load beside the items of
    another.  On every page a load that failed leaves the state as it
    was apart from the loading flag, and reports one error; and a load
    that took place ends with the loading flag lowered, whether it failed
    or not.  Without a signed-in user the [Preparation] page does not
    load at all, and the flag stays as it is. *)
Theorem fetch_all_or_nothing
    (B : backend) (answer : jsstring → bool) (b : b_store B) :
  (∀ uid s,
     let o := run B answer (Preparation.fetchData (Some uid) s) s b in
     Preparation.isLoading (o_state o) = false ∧
     (some_request_failed o →
      o_state o = Preparation.setIsLoading false s ∧
      o_toasts o = [ToastError (js "Failed to fetch data")])) ∧
  (∀ s, nothing_happened s b
          (run B answer (Preparation.fetchData None s) s b)) ∧
  (∀ s,
     let o := run B answer Dashboard.fetchJobs s b in
     Dashboard.isLoading (o_state o) = false ∧
     (some_request_failed o →
      o_state o = Dashboard.setIsLoading false s ∧
      o_toasts o = [ToastError (js "Failed to fetch jobs")])) ∧
  (∀ s,
     let o := run B answer StoriesPage.fetchStories s b in
     StoriesPage.isLoading (o_state o) = false ∧
     (some_request_failed o →
      o_state o = StoriesPage.setIsLoading false s ∧
      o_toasts o = [ToastError (js "Failed to fetch stories")])) ∧
  (∀ s,
     let o := run B answer NotesPage.fetchNotes s b in
     NotesPage.isLoading (o_state o) = false ∧
     (some_request_failed o →
      o_state o = NotesPage.setIsLoading false s ∧
      o_toasts o = [ToastError (js "Failed to fetch notes")])).
Proof.
  split; [|split; [|split; [|split]]].
  - intros uid s. unfold Preparation.fetchData, Preparation.finish_loading.
    solve_fetch.
  - intros s. reflexivity.
  - intros s. unfold Dashboard.fetchJobs. solve_fetch.
  - intros s. unfold StoriesPage.fetchStories. solve_fetch.
  - intros s. unfold NotesPage.fetchNotes. solve_fetch.
Qed.

Lemma fetch_all_or_nothing_witness :
  let o := run offline (λ _, true)
               (Preparation.fetchData (Some user1) loaded_state)
               loaded_state () in
  o_state o = Preparation.setIsLoading false loaded_state ∧
  o_toasts o = [ToastError (js "Failed to fetch data")].
Proof.
  destruct (fetch_all_or_nothing offline (λ _, true) ()) as (Hprep & _).
  apply (Hprep user1 loaded_state). vm_compute. constructor.
Defined.

(** ** Saving an open note *)

(** Submitting the form of a stored note hands the draft to [autoSave],
    which reports its own failure and does not pass it on.  The submit
    therefore goes on as after a success: ['Note saved'] is reported and
    the modal is closed, also when the update was refused; the first two
    reports are then the error of [autoSave] followed by the success of
    the submit. *)
Theorem note_edit_reports_saved
    (user : option jsstring) (now : jsstring)
    (B : backend) (answer : jsstring → bool) (b : b_store B)
    (s : NotesPage.State) (editing : NotesPage.Note) :
  NotesPage.editingNote s = Some editing →
  truthy (trim (NotesPage.title (NotesPage.formData s))) = true →
  let o := run B answer (NotesPage.handleSubmit user now s) s b in
  ToastSuccess (js "Note saved") ∈ o_toasts o ∧
  NotesPage.isModalOpen (o_state o) = false ∧
  NotesPage.editingNote (o_state o) = None ∧
  NotesPage.isSaving (o_state o) = false ∧
  NotesPage.formData (o_state o) = NotesPage.formData s ∧
  (first_request_failed o →
   take 2 (o_toasts o) = [ToastError (js "Failed to autosave");
                          ToastSuccess (js "Note saved")]).
Proof.
  intros Hedit Htitle. unfold NotesPage.handleSubmit, NotesPage.autoSave.
  rewrite Hedit, Htitle. unfold first_request_failed. simpl.
  unfold NotesPage.fetchNotes. split_run;
    (split; [set_solver|]); repeat (split; [reflexivity|]);
    first [ by intros [=] | intros _; reflexivity ].
Qed.

Lemma note_edit_reports_saved_witness :
  let o := run offline (λ _, true)
               (NotesPage.handleSubmit (Some user1) t0 editing_note_state)
               editing_note_state () in
  ToastSuccess (js "Note saved") ∈ o_toasts o ∧
  NotesPage.isModalOpen (o_state o) = false ∧
  NotesPage.editingNote (o_state o) = None ∧
  NotesPage.isSaving (o_state o) = false ∧
  NotesPage.formData (o_state o) = NotesPage.formData editing_note_state ∧
  take 2 (o_toasts o) = [ToastError (js "Failed to autosave");
                         ToastSuccess (js "Note saved")].
Proof.
  destruct (note_edit_reports_saved (Some user1) t0 offline (λ _, true) ()
              editing_note_state stored_note)
    as (H1 & H2 & H3 & H4 & H5 & H6); [reflexivity|reflexivity|].
  repeat (split; [assumption|]). apply H6. vm_compute. reflexivity.
Defined.

(** ** The gates in front of a request *)

Lemma not_blank s : ¬ whitespace_only s → truthy (trim s) = true.
Proof.
  intros H. destruct (truthy (trim s)) eqn:E; [done|].
  by apply blank_iff in E.
Qed.

(** A declined confirmation ends a delete: on none of the pages is a
    request sent, a report shown or a cell of the state written. *)
Theorem declined_delete_does_nothing
    (user : option jsstring) (id : jsstring) (B : backend) (b : b_store B) :
  (∀ s, nothing_happened s b
          (run B (λ _, false) (Preparation.handleDeleteFolder user s id) s b)) ∧
  (∀ s, nothing_happened s b
          (run B (λ _, false) (Preparation.handleDeleteItem user s id) s b)) ∧
  (∀ s, nothing_happened s b
          (run B (λ _, false) (Dashboard.handleDelete id) s b)) ∧
  (∀ s, nothing_happened s b
          (run B (λ _, false) (StoriesPage.handleDelete id) s b)) ∧
  (∀ s, nothing_happened s b
          (run B (λ _, false) (NotesPage.handleDelete id) s b)).
Proof. repeat split. Qed.

(** The forms send a request exactly when they are filled in.  A folder
    needs a name that is not blank; an item a title that is not blank and
    a selected folder, the title being looked at first; a story and a
    note a title that is not blank.  A form that is not filled in shows
    its message and does nothing else; the silent [autoSave] of a note
    with a blank title does nothing at all.  A form that is filled in
    sends at least one request. *)
Theorem forms_send_when_filled
    (user : option jsstring) (now : jsstring)
    (B : backend) (answer : jsstring → bool) (b : b_store B) :
  (∀ s, let o := run B answer (Preparation.handleSaveFolder user now s) s b in
     (whitespace_only (Preparation.folderName s) →
      o = mkOutcome s [ToastError (js "Folder name is required")] [] b) ∧
     (¬ whitespace_only (Preparation.folderName s) → o_requests o ≠ [])) ∧
  (∀ s, let o := run B answer (Preparation.handleSaveItem user now s) s b in
     let t := Preparation.title (Preparation.formData s) in
     (whitespace_only t →
      o = mkOutcome s [ToastError (js "Title is required")] [] b) ∧
     (¬ whitespace_only t →
      truthy_opt (Preparation.selectedFolderId s) = false →
      o = mkOutcome s [ToastError (js "Please select a folder")] [] b) ∧
     (¬ whitespace_only t →
      truthy_opt (Preparation.selectedFolderId s) = true →
      o_requests o ≠ [])) ∧
  (∀ s, let o := run B answer (StoriesPage.handleSubmit user now s) s b in
     let t := StoriesPage.title (StoriesPage.formData s) in
     (whitespace_only t →
      o = mkOutcome s [ToastError (js "Title is required")] [] b) ∧
     (¬ whitespace_only t → o_requests o ≠ [])) ∧
  (∀ s, let o := run B answer (NotesPage.handleSubmit user now s) s b in
     let t := NotesPage.title (NotesPage.formData s) in
     (whitespace_only t →
      o = mkOutcome s [ToastError (js "Title is required")] [] b) ∧
     (¬ whitespace_only t → o_requests o ≠ [])) ∧
  (∀ s noteId data,
     let o := run B answer (NotesPage.autoSave now noteId data) s b in
     (whitespace_only (NotesPage.title data) → nothing_happened s b o) ∧
     (¬ whitespace_only (NotesPage.title data) → length (o_requests o) = 1)).
Proof.
  split; [|split; [|split; [|split]]].
  - intros s. split.
    + intros H%blank_iff. unfold Preparation.handleSaveFolder.
      by rewrite H.
    + intros H%not_blank. unfold Preparation.handleSaveFolder.
      rewrite H. simpl. split_run; done.
  - intros s. cbv zeta. split; [|split].
    + intros H%blank_iff. unfold Preparation.handleSaveItem. by rewrite H.
    + intros H%not_blank Hsel. unfold Preparation.handleSaveItem.
      rewrite H. simpl. destruct (Preparation.selectedFolderId s); [|done].
      simpl in Hsel. by rewrite Hsel.
    + intros H%not_blank Hsel. unfold Preparation.handleSaveItem.
      rewrite H. simpl.
      destruct (Preparation.selectedFolderId s); [|done].
      simpl in Hsel. rewrite Hsel. simpl. split_run; done.
  - intros s. cbv zeta. split.
    + intros H%blank_iff. unfold StoriesPage.handleSubmit. by rewrite H.
    + intros H%not_blank. unfold StoriesPage.handleSubmit.
      rewrite H. simpl. split_run; done.
  - intros s. cbv zeta. split.
    + intros H%blank_iff. unfold NotesPage.handleSubmit. by rewrite H.
    + intros H%not_blank. unfold NotesPage.handleSubmit, NotesPage.autoSave.
      rewrite H. simpl. split_run; done.
  - intros s noteId data. cbv zeta. split.
    + intros H%blank_iff. unfold NotesPage.autoSave. by rewrite H.
    + intros H%not_blank. unfold NotesPage.autoSave.
      rewrite H. simpl. split_run; done.
Qed.

Lemma forms_send_when_filled_witness :
  run offline (λ _, true)
      (Preparation.handleSaveItem (Some user1) t0 tagged_state)
      tagged_state () =
    mkOutcome tagged_state [ToastError (js "Please select a folder")] [] () ∧
  run offline (λ _, true)
      (Preparation.handleSaveFolder (Some user1) t0 Preparation.initial)
      Preparation.initial () =
    mkOutcome Preparation.initial
              [ToastError (js "Folder name is required")] [] ().
Proof.
  destruct (forms_send_when_filled (Some user1) t0 offline (λ _, true) ())
    as (Hfolder & Hitem & _).
  split.
  - apply (Hitem tagged_state); [|reflexivity].
    intros H%blank_iff. vm_compute in H. discriminate H.
  - apply (Hfolder Preparation.initial). constructor.
Defined.
